(** * DIN99 colourspace: [colour/models/din99.py]

    A shallow embedding of [Lab_to_DIN99] and [DIN99_to_Lab] and the
    properties their specification states, followed by the plotting helpers
    of [colour/plotting/common.py] and what they draw.

    Numbers are exact reals extended with the three IEEE special values that
    numpy returns where a real operation is undefined ([np.log(0)] is [-inf],
    [np.log] of a negative number and [0/0] are [nan]).  Rounding, overflow
    and the sign of zero are not part of the model: a float literal such as
    [0.045] stands for the decimal it writes. *)

From Stdlib Require Import Reals Machin Factorial Lra Psatz List ZArith Lia.
From Stdlib Require String Ascii.
Import ListNotations.

Open Scope R_scope.

(** ** numpy scalar semantics *)

Module Np.

Inductive float : Type :=
| Fin (r : R)
| PInf
| NInf
| NaN.

Definition is_finite (x : float) : bool :=
  match x with Fin _ => true | _ => false end.

Definition is_nan (x : float) : bool :=
  match x with NaN => true | _ => false end.

Definition signed_inf (positive : bool) : float :=
  if positive then PInf else NInf.

(** [-x] *)
Definition neg (x : float) : float :=
  match x with
  | Fin r => Fin (- r)
  | PInf => NInf
  | NInf => PInf
  | NaN => NaN
  end.

(** [x + y]; [inf + -inf] is [nan]. *)
Definition add (x y : float) : float :=
  match x, y with
  | NaN, _ | _, NaN => NaN
  | Fin a, Fin b => Fin (a + b)
  | PInf, NInf | NInf, PInf => NaN
  | PInf, _ | _, PInf => PInf
  | NInf, _ | _, NInf => NInf
  end.

(** [x - y] *)
Definition sub (x y : float) : float := add x (neg y).

(** An infinity times the finite [r]; [inf * 0] is [nan]. *)
Definition inf_times (positive : bool) (r : R) : float :=
  if Rlt_dec 0 r then signed_inf positive
  else if Rlt_dec r 0 then signed_inf (negb positive)
  else NaN.

(** [x * y] *)
Definition mul (x y : float) : float :=
  match x, y with
  | NaN, _ | _, NaN => NaN
  | Fin a, Fin b => Fin (a * b)
  | PInf, Fin r | Fin r, PInf => inf_times true r
  | NInf, Fin r | Fin r, NInf => inf_times false r
  | PInf, PInf | NInf, NInf => PInf
  | PInf, NInf | NInf, PInf => NInf
  end.

(** [x / y] on numpy floats: a zero divisor gives an infinity of the sign of
    the dividend, [0/0] and [inf/inf] give [nan].  The divisor zero is taken
    as [+0]. *)
Definition div (x y : float) : float :=
  match x, y with
  | NaN, _ | _, NaN => NaN
  | Fin a, Fin b =>
      if Req_dec_T b 0 then
        if Rlt_dec 0 a then PInf else if Rlt_dec a 0 then NInf else NaN
      else Fin (a / b)
  | Fin _, PInf | Fin _, NInf => Fin 0
  | PInf, Fin b => if Rle_dec 0 b then PInf else NInf
  | NInf, Fin b => if Rle_dec 0 b then NInf else PInf
  | PInf, PInf | PInf, NInf | NInf, PInf | NInf, NInf => NaN
  end.

(** [x ** 2] *)
Definition square (x : float) : float := mul x x.

(** [np.sqrt] *)
Definition sqrt (x : float) : float :=
  match x with
  | Fin r => if Rlt_dec r 0 then NaN else Fin (R_sqrt.sqrt r)
  | PInf => PInf
  | NInf | NaN => NaN
  end.

(** [x ** 0.5].  It agrees with [np.sqrt] on every value that is not
    negative; a sum of squares, its only argument here, is never negative. *)
Definition pow_half (x : float) : float := sqrt x.

(** [np.log]: [-inf] at zero, [nan] below. *)
Definition log (x : float) : float :=
  match x with
  | Fin r =>
      if Rlt_dec 0 r then Fin (ln r)
      else if Rlt_dec r 0 then NaN
      else NInf
  | PInf => PInf
  | NInf | NaN => NaN
  end.

(** [np.exp] *)
Definition exp (x : float) : float :=
  match x with
  | Fin r => Fin (Rtrigo_def.exp r)
  | PInf => PInf
  | NInf => Fin 0
  | NaN => NaN
  end.

(** [np.cos], [np.sin]: [nan] at an infinity. *)
Definition cos (x : float) : float :=
  match x with
  | Fin r => Fin (Rtrigo_def.cos r)
  | _ => NaN
  end.

Definition sin (x : float) : float :=
  match x with
  | Fin r => Fin (Rtrigo_def.sin r)
  | _ => NaN
  end.

(** [np.radians]: degrees to radians. *)
Definition radians (x : float) : float := mul x (Fin (PI / 180)).

(** The angle of the point [(x, y)] in [(-PI, PI]], with [atan2 0 0 = 0]. *)
Definition atan2 (y x : R) : R :=
  if Rlt_dec 0 x then atan (y / x)
  else if Rlt_dec x 0 then
    if Rle_dec 0 y then atan (y / x) + PI else atan (y / x) - PI
  else if Rlt_dec 0 y then PI / 2
  else if Rlt_dec y 0 then - (PI / 2)
  else 0.

(** [np.arctan2(y, x)] *)
Definition arctan2 (y x : float) : float :=
  match y, x with
  | NaN, _ | _, NaN => NaN
  | Fin b, Fin a => Fin (atan2 b a)
  | Fin _, PInf => Fin 0
  | Fin b, NInf => if Rle_dec 0 b then Fin PI else Fin (- PI)
  | PInf, Fin _ => Fin (PI / 2)
  | NInf, Fin _ => Fin (- (PI / 2))
  | PInf, PInf => Fin (PI / 4)
  | NInf, PInf => Fin (- (PI / 4))
  | PInf, NInf => Fin (3 * PI / 4)
  | NInf, NInf => Fin (- (3 * PI / 4))
  end.

End Np.

Import Np.

(** ** Arrays of colour triples *)

(** What the two functions use of a numpy array whose last axis has length
    three: [tsplit] to its channels, [tstack] back, and elementwise
    application of a scalar operation ([ufunc], [ufunc2]).  [T] is the array
    of triples, [A] the array of one channel. *)
Class NDArray (T A : Type) : Type := {
  tsplit : T -> A * A * A;
  tstack : A * A * A -> T;
  ufunc : (float -> float) -> A -> A;
  ufunc2 : (float -> float -> float) -> A -> A -> A
}.

Definition Triple : Type := (float * float * float)%type.

(** A single triple, shape [(3,)]: its channels are scalars. *)
#[export] Instance triple_array : NDArray Triple float := {
  tsplit := fun t => t;
  tstack := fun t => t;
  ufunc := fun f x => f x;
  ufunc2 := fun f x y => f x y
}.

Fixpoint zip_with {X Y Z : Type} (f : X -> Y -> Z) (xs : list X) (ys : list Y)
  : list Z :=
  match xs, ys with
  | x :: xs', y :: ys' => f x y :: zip_with f xs' ys'
  | _, _ => []
  end.

Fixpoint zip3 {X : Type} (xs ys zs : list X) : list (X * X * X) :=
  match xs, ys, zs with
  | x :: xs', y :: ys', z :: zs' => (x, y, z) :: zip3 xs' ys' zs'
  | _, _, _ => []
  end.

(** Modelled from the spec: [colour.utilities.tsplit] is not among the
    sources.  By the spec it splits the input into its [L], [a], [b]
    channels along the last axis; on shape [(N, 3)] each channel has shape
    [(N,)]. *)
Definition tsplit_batch (ts : list Triple) : list float * list float * list float :=
  (map (fun t : Triple => fst (fst t)) ts,
   map (fun t : Triple => snd (fst t)) ts,
   map (fun t : Triple => snd t) ts).

(** Modelled from the spec: [colour.utilities.tstack] is not among the
    sources.  By the spec it stacks the three channels along a new last
    axis, with the leading shape of the input. *)
Definition tstack_batch (chans : list float * list float * list float)
  : list Triple :=
  let '(x, y, z) := chans in zip3 x y z.

(** A batch of [N] triples, shape [(N, 3)]: each channel is a list of [N]
    scalars and a ufunc applies elementwise.  All channel arrays in the two
    functions come from one [tsplit] and have the same length. *)
#[export] Instance batch_array : NDArray (list Triple) (list float) := {
  tsplit := tsplit_batch;
  tstack := tstack_batch;
  ufunc := fun f xs => map f xs;
  ufunc2 := fun f xs ys => zip_with f xs ys
}.

(** ** The two transformations *)

Section DIN99.

Context {T A : Type} {nd : NDArray T A}.

Local Abbreviation ufunc := (@ufunc T A nd).
Local Abbreviation ufunc2 := (@ufunc2 T A nd).

(** scalar [op] array, array [op] scalar, array [op] array *)
Local Notation "s *: x" := (ufunc (mul s) x) (at level 40, left associativity).
Local Notation "x :* s" := (ufunc (fun v => mul v s) x) (at level 40, left associativity).
Local Notation "x :*: y" := (ufunc2 mul x y) (at level 40, left associativity).
Local Notation "s +: x" := (ufunc (add s) x) (at level 50, left associativity).
Local Notation "x :+: y" := (ufunc2 add x y) (at level 50, left associativity).
Local Notation "x :-: y" := (ufunc2 sub x y) (at level 50, left associativity).
Local Notation "x :- s" := (ufunc (fun v => sub v s) x) (at level 50, left associativity).
Local Notation "x :/ s" := (ufunc (fun v => div v s) x) (at level 40, left associativity).

(** [C_99 = (np.log(1 + 0.045 * G)) / (0.045 * k_CH * k_E)] *)
Definition Lab_to_DIN99_C_99 (G : A) (k_E k_CH : float) : A :=
  ufunc log (Fin 1 +: Fin 0.045 *: G) :/ (mul (mul (Fin 0.045) k_CH) k_E).

(** [L_99 = 105.509 * (np.log(1 + 0.0158 * L)) * k_E] *)
Definition Lab_to_DIN99_L_99 (L : A) (k_E : float) : A :=
  (Fin 105.509 *: ufunc log (Fin 1 +: Fin 0.0158 *: L)) :* k_E.

Definition Lab_to_DIN99 (Lab : T) (k_E k_CH : float) : T :=
  let '(L, a, b) := tsplit Lab in
  let cos_16 := cos (radians (Fin 16)) in
  let sin_16 := sin (radians (Fin 16)) in
  let e := cos_16 *: a :+: sin_16 *: b in
  let f := Fin 0.7 *: (neg sin_16 *: a :+: cos_16 *: b) in
  let G := ufunc pow_half (ufunc square e :+: ufunc square f) in
  let h_ef := ufunc2 arctan2 f e in
  let C_99 := Lab_to_DIN99_C_99 G k_E k_CH in
  let a_99 := C_99 :*: ufunc cos h_ef in
  let b_99 := C_99 :*: ufunc sin h_ef in
  let L_99 := Lab_to_DIN99_L_99 L k_E in
  tstack (L_99, a_99, b_99).

(** [G = (np.exp(0.045 * C_99 * k_CH * k_E) - 1) / 0.045] *)
Definition DIN99_to_Lab_G (C_99 : A) (k_E k_CH : float) : A :=
  (ufunc exp (Fin 0.045 *: C_99 :* k_CH :* k_E) :- Fin 1) :/ Fin 0.045.

(** [L = (np.exp(L_99 * k_E / 105.509) - 1) / 0.0158] *)
Definition DIN99_to_Lab_L (L_99 : A) (k_E : float) : A :=
  (ufunc exp (L_99 :* k_E :/ Fin 105.509) :- Fin 1) :/ Fin 0.0158.

Definition DIN99_to_Lab (Lab_99 : T) (k_E k_CH : float) : T :=
  let '(L_99, a_99, b_99) := tsplit Lab_99 in
  let cos_16 := cos (radians (Fin 16)) in
  let sin_16 := sin (radians (Fin 16)) in
  let h_99 := ufunc2 arctan2 b_99 a_99 in
  let C_99 := ufunc sqrt (ufunc square a_99 :+: ufunc square b_99) in
  let G := DIN99_to_Lab_G C_99 k_E k_CH in
  let e := G :*: ufunc cos h_99 in
  let f := G :*: ufunc sin h_99 in
  let a := e :* cos_16 :-: (f :/ Fin 0.7) :* sin_16 in
  let b := e :* sin_16 :+: (f :/ Fin 0.7) :* cos_16 in
  let L := DIN99_to_Lab_L L_99 k_E in
  tstack (L, a, b).

End DIN99.

(** Channels of a single triple. *)
Definition chan_L (t : Triple) : float := fst (fst t).
Definition chan_a (t : Triple) : float := snd (fst t).
Definition chan_b (t : Triple) : float := snd t.

(** The triple of three finite reals. *)
Definition triple (x y z : R) : Triple := (Fin x, Fin y, Fin z).

(** Real-valued names for the quantities of the two functions, used to
    state what they compute on finite input. *)
Definition cos_16 : R := Rtrigo_def.cos (16 * (PI / 180)).
Definition sin_16 : R := Rtrigo_def.sin (16 * (PI / 180)).

(** [e] and [f] of [Lab_to_DIN99] *)
Definition rot_e (a b : R) : R := cos_16 * a + sin_16 * b.
Definition rot_f (a b : R) : R := 0.7 * (- sin_16 * a + cos_16 * b).

(** [(x ** 2 + y ** 2) ** 0.5] *)
Definition radius (x y : R) : R := R_sqrt.sqrt (x * x + y * y).

(** [x ^ i / i!], the terms of the exponential series. *)
Definition exp_seq (x : R) (i : nat) : R := x ^ i / INR (fact i).

(** The tail of the alternating exponential series from index [m], scaled
    by [m!], and its Horner form. *)
Definition exp_tail (x : R) (m i : nat) : R :=
  (-1) ^ i * x ^ i * INR (fact m) / INR (fact (m + i)).

Fixpoint exp_horner (x k : R) (n : nat) : R :=
  match n with
  | O => 1
  | S n' => 1 - x / k * exp_horner x (k + 1) n'
  end.

(** A finite value within [tol] of the real [r]. *)
Definition within (tol : R) (x : float) (r : R) : Prop :=
  match x with
  | Fin v => Rabs (v - r) < tol
  | _ => False
  end.

(** The colour of the two doctests. *)
Definition ref_L : R := 37.98562910.
Definition ref_a : R := -23.62907688.
Definition ref_b : R := -4.41746615.
Definition ref_L_99 : R := 49.60101649.
Definition ref_a_99 : R := -16.23145729.
Definition ref_b_99 : R := 1.07618123.

(** A finite Lab triple on which the logarithm of the lightness is
    defined, and its array. *)
Definition in_domain (t : R * R * R) : Prop := 0 < 1 + 0.0158 * fst (fst t).

Definition finite_triple (t : R * R * R) : Triple :=
  triple (fst (fst t)) (snd (fst t)) (snd t).

(** * Plotting helpers: [colour/plotting/common.py]

    The functions act by calling matplotlib.  [equal_axes3d] and [camera]
    are embedded as functions on the state of the 3d axes they change; the
    other functions as the list of the calls they make, in order, with what
    they return or raise. *)

Module Plotting.

Import Stdlib.Strings.String Stdlib.Strings.Ascii.

(** The state of a matplotlib 3d axes that [equal_axes3d] and [camera] read
    and write.  [set_*lim] stores the pair it is given and [get_*lim]
    returns the stored pair; matplotlib's widening of an interval whose two
    ends are equal is not part of the model. *)
Record Axes3D : Type := {
  axes_aspect : string;
  xlim : R * R;
  ylim : R * R;
  zlim : R * R;
  elev : option R;
  azim : option R
}.

Definition set_aspect (a : string) (axes : Axes3D) : Axes3D :=
  {| axes_aspect := a; xlim := xlim axes; ylim := ylim axes; zlim := zlim axes;
     elev := elev axes; azim := azim axes |}.


Inductive Axis : Type := axis_x | axis_y | axis_z.

(** [getattr(axes, 'get_{}lim'.format(axis))()] *)
Definition get_lim (axis : Axis) (axes : Axes3D) : R * R :=
  match axis with
  | axis_x => xlim axes
  | axis_y => ylim axes
  | axis_z => zlim axes
  end.

(** [getattr(axes, 'set_{}lim'.format(axis))(lo, hi)] *)
Definition set_lim (axis : Axis) (lo hi : R) (axes : Axes3D) : Axes3D :=
  match axis with
  | axis_x =>
      {| axes_aspect := axes_aspect axes; xlim := (lo, hi); ylim := ylim axes;
         zlim := zlim axes; elev := elev axes; azim := azim axes |}
  | axis_y =>
      {| axes_aspect := axes_aspect axes; xlim := xlim axes; ylim := (lo, hi);
         zlim := zlim axes; elev := elev axes; azim := azim axes |}
  | axis_z =>
      {| axes_aspect := axes_aspect axes; xlim := xlim axes; ylim := ylim axes;
         zlim := (lo, hi); elev := elev axes; azim := azim axes |}
  end.

(** ['xyz'] *)
Definition xyz : list Axis := [axis_x; axis_y; axis_z].

(** [np.mean(extents, axis=1)] on one row *)
Definition mean_row (p : R * R) : R := (fst p + snd p) / 2.

(** [np.max] of a non-empty array *)
Definition np_max (xs : list R) : R :=
  match xs with
  | [] => 0
  | x :: xs' => fold_left Rmax xs' x
  end.

Definition equal_axes3d (axes : Axes3D) : Axes3D * bool :=
  let axes := set_aspect "equal" axes in
  let extents := map (fun axis => get_lim axis axes) xyz in
  let centers := map mean_row extents in
  let extent := np_max (map (fun p => Rabs (snd p - fst p)) extents) in
  let axes :=
    fold_left
      (fun axes '(center, axis) =>
         set_lim axis (center - extent / 2) (center + extent / 2) axes)
      (combine centers xyz) axes in
  (axes, true).


(** *** Calls to matplotlib

    The plotting functions act by calling matplotlib; what they do is the
    sequence of calls they make.  [gcf] and [gca] always return the current
    figure and the current axes. *)

(** Values of keyword arguments handed through to matplotlib. *)
Inductive pyval : Type :=
| VNone
| VBool (b : bool)
| VNum (r : R)
| VStr (s : string)
| VTuple (rs : list R).

(** A colour argument: an RGB array or a matplotlib colour name. *)
Inductive Colour : Type :=
| colour_RGB (r g b : R)
| colour_name (s : string).

(** A tick locator object. *)
Inductive Locator : Type :=
| AutoMinorLocator (n : Z)
| other_locator (id : nat).

Inductive Call : Type :=
| call_set_size_inches (figure_size : R * R)
| call_xlim (lo hi : R)
| call_ylim (lo hi : R)
| call_title (s : string)
| call_xlabel (s : string)
| call_ylabel (s : string)
| call_legend (loc : string) (ncol : Z)
| call_set_minor_locator (axis : Axis) (l : Locator)
| call_set_ticks (axis : Axis) (ticks : list R)
| call_grid (which axis : string)
| call_axvline (color linestyle : string)
| call_axhline (color linestyle : string)
| call_set_aspect (a : string)
| call_set_axis_off
| call_patch_set_visible (b : bool)
| call_tight_layout
| call_savefig (filename : string)
| call_show
| call_close
| call_fill (xs ys : list R) (color : option Colour)
| call_text (x y : R) (s : string) (kwargs : list (string * pyval))
| call_set_facecolor (c : Colour)
| call_imshow (values : list R) (interpolation : option string) (cmap : string).

Inductive Figure : Type := current_figure.

Inductive exn : Type :=
| AssertionError
| ZeroDivisionError
| IndexError
| TypeError.

(** The keyword arguments the functions read, with the types their
    docstrings give.  [None] is a keyword that was not passed; for the
    keywords whose default is [None] it is also a passed [None]. *)
Record Kwargs : Type := {
  figure_size : option (R * R);
  bounding_box : option (R * R * R * R);
  x_tighten : option bool;
  y_tighten : option bool;
  limits : option (R * R * R * R);
  margins : option (R * R * R * R);
  title : option string;
  x_label : option string;
  y_label : option string;
  legend : option bool;
  legend_columns : option Z;
  legend_location : option string;
  x_ticker : option bool;
  y_ticker : option bool;
  x_ticker_locator : option Locator;
  y_ticker_locator : option Locator;
  grid : option bool;
  grid_which : option string;
  grid_axis : option string;
  x_axis_line : option bool;
  y_axis_line : option bool;
  aspect : option string;
  no_axes : option bool;
  transparent_background : option bool;
  tight_layout : option bool;
  standalone : option bool;
  filename : option string;
  with_boundaries : option bool;
  with_decorate : option bool
}.

Definition no_kwargs : Kwargs :=
  {| figure_size := None; bounding_box := None; x_tighten := None;
     y_tighten := None; limits := None; margins := None; title := None;
     x_label := None; y_label := None; legend := None; legend_columns := None;
     legend_location := None; x_ticker := None; y_ticker := None;
     x_ticker_locator := None; y_ticker_locator := None; grid := None;
     grid_which := None; grid_axis := None; x_axis_line := None;
     y_axis_line := None; aspect := None; no_axes := None;
     transparent_background := None; tight_layout := None; standalone := None;
     filename := None; with_boundaries := None; with_decorate := None |}.

(** [settings.update(kwargs)] for one key *)
Definition setting {V : Type} (default : V) (passed : option V) : V :=
  match passed with
  | Some v => v
  | None => default
  end.

(** [d.update(kwargs)] for one key of a dictionary of keyword arguments *)
Definition updated {V : Type} (d kwargs : option V) : option V :=
  match kwargs with
  | Some v => Some v
  | None => d
  end.

(** [settings.update(kwargs)] on dictionaries of keyword arguments *)
Definition update (d kwargs : Kwargs) : Kwargs :=
  {| figure_size := updated (figure_size d) (figure_size kwargs);
     bounding_box := updated (bounding_box d) (bounding_box kwargs);
     x_tighten := updated (x_tighten d) (x_tighten kwargs);
     y_tighten := updated (y_tighten d) (y_tighten kwargs);
     limits := updated (limits d) (limits kwargs);
     margins := updated (margins d) (margins kwargs);
     title := updated (title d) (title kwargs);
     x_label := updated (x_label d) (x_label kwargs);
     y_label := updated (y_label d) (y_label kwargs);
     legend := updated (legend d) (legend kwargs);
     legend_columns := updated (legend_columns d) (legend_columns kwargs);
     legend_location := updated (legend_location d) (legend_location kwargs);
     x_ticker := updated (x_ticker d) (x_ticker kwargs);
     y_ticker := updated (y_ticker d) (y_ticker kwargs);
     x_ticker_locator := updated (x_ticker_locator d) (x_ticker_locator kwargs);
     y_ticker_locator := updated (y_ticker_locator d) (y_ticker_locator kwargs);
     grid := updated (grid d) (grid kwargs);
     grid_which := updated (grid_which d) (grid_which kwargs);
     grid_axis := updated (grid_axis d) (grid_axis kwargs);
     x_axis_line := updated (x_axis_line d) (x_axis_line kwargs);
     y_axis_line := updated (y_axis_line d) (y_axis_line kwargs);
     aspect := updated (aspect d) (aspect kwargs);
     no_axes := updated (no_axes d) (no_axes kwargs);
     transparent_background :=
       updated (transparent_background d) (transparent_background kwargs);
     tight_layout := updated (tight_layout d) (tight_layout kwargs);
     standalone := updated (standalone d) (standalone kwargs);
     filename := updated (filename d) (filename kwargs);
     with_boundaries := updated (with_boundaries d) (with_boundaries kwargs);
     with_decorate := updated (with_decorate d) (with_decorate kwargs) |}.

(** Truth value of a string or [None]: [if settings.title:] *)
Definition truthy (s : option string) : bool :=
  match s with
  | None => false
  | Some s => negb (String.eqb s "")
  end.

(** [DEFAULT_FIGURE_ASPECT_RATIO], [DEFAULT_FIGURE_WIDTH],
    [DEFAULT_FIGURE_HEIGHT], [DEFAULT_FIGURE_SIZE] *)
Definition DEFAULT_FIGURE_ASPECT_RATIO : R := (R_sqrt.sqrt 5 - 1) / 2.
Definition DEFAULT_FIGURE_WIDTH : R := 18.
Definition DEFAULT_FIGURE_HEIGHT : R :=
  DEFAULT_FIGURE_WIDTH * DEFAULT_FIGURE_ASPECT_RATIO.
Definition DEFAULT_FIGURE_SIZE : R * R :=
  (DEFAULT_FIGURE_WIDTH, DEFAULT_FIGURE_HEIGHT).

(** [canvas]: the current figure always exists, so its size is set. *)
Definition canvas (kwargs : Kwargs) : list Call :=
  let figure_size := setting DEFAULT_FIGURE_SIZE (figure_size kwargs) in
  [call_set_size_inches figure_size].

Definition boundaries (kwargs : Kwargs) : list Call :=
  let x_tighten := setting false (x_tighten kwargs) in
  let y_tighten := setting false (y_tighten kwargs) in
  let limits := setting (0, 1, 0, 1) (limits kwargs) in
  let margins := setting (0, 0, 0, 0) (margins kwargs) in
  match bounding_box kwargs with
  | None =>
      let '(x_limit_min, x_limit_max, y_limit_min, y_limit_max) := limits in
      let '(x_margin_min, x_margin_max, y_margin_min, y_margin_max) := margins in
      (if x_tighten
       then [call_xlim (x_limit_min + x_margin_min) (x_limit_max + x_margin_max)]
       else []) ++
      (if y_tighten
       then [call_ylim (y_limit_min + y_margin_min) (y_limit_max + y_margin_max)]
       else [])
  | Some (b0, b1, b2, b3) => [call_xlim b0 b1; call_ylim b2 b3]
  end.

(** One [if] of [decorate]. *)
Definition when (b : bool) (calls : list Call) : list Call :=
  if b then calls else [].

Definition decorate (kwargs : Kwargs) : list Call :=
  let legend_columns := setting 1%Z (legend_columns kwargs) in
  let legend_location := setting "upper right"%string (legend_location kwargs) in
  let x_ticker_locator := setting (AutoMinorLocator 2) (x_ticker_locator kwargs) in
  let y_ticker_locator := setting (AutoMinorLocator 2) (y_ticker_locator kwargs) in
  let grid_which := setting "both"%string (grid_which kwargs) in
  let grid_axis := setting "both"%string (grid_axis kwargs) in
  when (truthy (title kwargs)) [call_title (setting ""%string (title kwargs))] ++
  when (truthy (x_label kwargs)) [call_xlabel (setting ""%string (x_label kwargs))] ++
  when (truthy (y_label kwargs)) [call_ylabel (setting ""%string (y_label kwargs))] ++
  when (setting false (legend kwargs)) [call_legend legend_location legend_columns] ++
  (if setting true (x_ticker kwargs)
   then [call_set_minor_locator axis_x x_ticker_locator]
   else [call_set_ticks axis_x []]) ++
  (if setting true (y_ticker kwargs)
   then [call_set_minor_locator axis_y y_ticker_locator]
   else [call_set_ticks axis_y []]) ++
  when (setting false (grid kwargs)) [call_grid grid_which grid_axis] ++
  when (setting false (x_axis_line kwargs)) [call_axvline "black" "--"] ++
  when (setting false (y_axis_line kwargs)) [call_axhline "black" "--"] ++
  when (truthy (aspect kwargs))
    [call_set_aspect (setting ""%string (aspect kwargs))] ++
  when (setting false (no_axes kwargs)) [call_set_axis_off].

(** [display]: the calls and the returned figure, [None] when standalone. *)
Definition display (kwargs : Kwargs) : list Call * option Figure :=
  let figure := current_figure in
  let calls :=
    when (setting false (transparent_background kwargs))
      [call_patch_set_visible false] ++
    when (setting false (tight_layout kwargs)) [call_tight_layout] in
  if setting true (standalone kwargs) then
    (calls ++
     match filename kwargs with
     | Some f => [call_savefig f]
     | None => [call_show]
     end ++ [call_close], None)
  else (calls, Some figure).

(** [render(with_boundaries, with_decorate, **kwargs)], the two named
    arguments being keys of [kwargs]. *)
Definition render (kwargs : Kwargs) : list Call * option Figure :=
  let calls_b :=
    if setting true (with_boundaries kwargs) then boundaries kwargs else [] in
  let calls_d :=
    if setting true (with_decorate kwargs) then decorate kwargs else [] in
  let '(calls, figure) := display kwargs in
  (calls_b ++ calls_d ++ calls, figure).

(** What [label_rectangles] reads of a matplotlib rectangle. *)
Record Rectangle : Type := {
  get_x : R;
  get_width : R;
  get_height : R
}.

Section Labels.

(** ['{0:.1f}'.format] *)
Variable format_1f : R -> string.

(** The second loop of [label_rectangles]; the label of a rectangle is
    looked up before its text is drawn. *)
Fixpoint label_loop (labels : list R) (rectangles : list Rectangle)
    (rotation : string) (text_size : R) (offset : R * R) (y_m : R)
    {struct rectangles} : list Call * (exn + unit) :=
  match rectangles with
  | [] => ([], inr tt)
  | rectangle :: rectangles' =>
      let x := get_x rectangle in
      let height := get_height rectangle in
      let width := get_width rectangle in
      match labels with
      | [] => ([], inl IndexError)
      | label :: labels' =>
          let '(calls, result) :=
            label_loop labels' rectangles' rotation text_size offset y_m in
          (call_text (x + width / 2 + fst offset * width)
                     (height + snd offset * y_m)
                     (format_1f label)
                     [("ha", VStr "center"); ("va", VStr "bottom");
                      ("rotation", VStr rotation); ("fontsize", VNum text_size);
                      ("clip_on", VBool true)]%string
             :: calls, result)
      end
  end.

(** [label_rectangles(labels, rectangles, rotation='vertical', text_size=10,
    offset=None)]; [None] is an argument that was not passed. *)
Definition label_rectangles (labels : list R) (rectangles : list Rectangle)
    (rotation : option string) (text_size : option R) (offset : option (R * R))
  : list Call * (exn + bool) :=
  let rotation := setting "vertical"%string rotation in
  let text_size := setting 10 text_size in
  let offset := setting (0, 0.025) offset in
  let x_m := fold_left (fun x_m rectangle => Rmax x_m (get_width rectangle))
               rectangles 0 in
  let y_m := fold_left (fun y_m rectangle => Rmax y_m (get_height rectangle))
               rectangles 0 in
  let '(calls, result) :=
    label_loop labels rectangles rotation text_size offset y_m in
  (calls, match result with inl e => inl e | inr _ => inr true end).

End Labels.

(** [ColourSwatch(name=None, RGB=None)] *)
Record ColourSwatch : Type := {
  name : option string;
  RGB : option Colour
}.

(** [text_parameters]: the keys [visible] and [offset], and the keyword
    arguments handed on to [pylab.text]. *)
Record TextParameters : Type := {
  visible : option bool;
  offset : option R;
  other : list (string * pyval)
}.

(** The swatches of the example in the docstring of
    [multi_colour_swatch_plot], and its default background colour. *)
Definition RGB_1 : ColourSwatch :=
  {| name := None; RGB := Some (colour_RGB 0.45293517 0.31732158 0.26414773) |}.
Definition RGB_2 : ColourSwatch :=
  {| name := None; RGB := Some (colour_RGB 0.77875824 0.57726450 0.50453169) |}.
Definition white : Colour := colour_RGB 1 1 1.

(** [s.lower()] on ASCII letters *)
Definition lower_ascii (c : ascii) : ascii :=
  let n := nat_of_ascii c in
  if ((65 <=? n)%nat && (n <=? 90)%nat)%bool then ascii_of_nat (n + 32) else c.

Fixpoint lower (s : string) : string :=
  match s with
  | EmptyString => EmptyString
  | String c s' => String (lower_ascii c) (lower s')
  end.

(** [xs[0::2]] and [xs[1::2]] *)
Fixpoint even_items {X : Type} (xs : list X) : list X :=
  match xs with
  | [] => []
  | x :: xs' => x :: odd_items xs'
  end
with odd_items {X : Type} (xs : list X) : list X :=
  match xs with
  | [] => []
  | _ :: xs' => even_items xs'
  end.

(** The three drawing steps of the loop of [multi_colour_swatch_plot]: the
    reference swatch, the test swatch and the name. *)
Definition draw_reference (x_0 x_1 y_0 y_1 : R) (colour_swatch : ColourSwatch)
  : Call :=
  call_fill [x_0; x_1; x_1; x_0] [y_0; y_0; y_1; y_1] (RGB colour_swatch).

Definition draw_test (width height : R) (compare_swatches : string)
    (x_0 x_1 y_0 y_1 : R) (test : ColourSwatch) : Call :=
  if String.eqb compare_swatches "stacked" then
    let margin_X := width * 0.25 in
    let margin_Y := height * 0.25 in
    call_fill
      [x_0 + margin_X; x_1 - margin_X; x_1 - margin_X; x_0 + margin_X]
      [y_0 + margin_Y; y_0 + margin_Y; y_1 - margin_Y; y_1 - margin_Y]
      (RGB test)
  else call_fill [x_0; x_1; x_1] [y_0; y_0; y_1] (RGB test).

Definition draw_name (text_visible : bool) (text_offset : R)
    (text_other : list (string * pyval)) (x_0 y_0 : R)
    (colour_swatch : ColourSwatch) : list Call :=
  match name colour_swatch with
  | Some n =>
      when text_visible
        [call_text (x_0 + text_offset) (y_0 + text_offset) n
           ([("clip_on", VBool true); ("visible", VBool text_visible)]%string
              ++ text_other)]
  | None => []
  end.

(** The loop of [multi_colour_swatch_plot] from index [i] on, with the
    offsets it has reached; it returns the offsets it ends with. *)
Fixpoint swatch_loop (width height spacing : R) (columns : Z)
    (compare_swatches : string) (text_visible : bool) (text_offset : R)
    (text_other : list (string * pyval))
    (test_colour_swatches : list ColourSwatch)
    (i : nat) (swatches : list ColourSwatch) (offset_X offset_Y : R)
    {struct swatches} : list Call * (exn + R * R) :=
  match swatches with
  | [] => ([], inr (offset_X, offset_Y))
  | colour_swatch :: swatches' =>
      if (columns =? 0)%Z then ([], inl ZeroDivisionError) else
      let '(offset_X, offset_Y) :=
        if ((Z.of_nat i mod columns =? 0)%Z && negb (i =? 0)%nat)%bool
        then (0, offset_Y - (height + spacing))
        else (offset_X, offset_Y) in
      let '(x_0, x_1) := (offset_X, offset_X + width) in
      let '(y_0, y_1) := (offset_Y, offset_Y + height) in
      let fill_reference := draw_reference x_0 x_1 y_0 y_1 colour_swatch in
      match nth_error test_colour_swatches i with
      | None => ([fill_reference], inl IndexError)
      | Some test =>
          let fill_test :=
            draw_test width height compare_swatches x_0 x_1 y_0 y_1 test in
          let text :=
            draw_name text_visible text_offset text_other x_0 y_0 colour_swatch in
          let '(calls, result) :=
            swatch_loop width height spacing columns compare_swatches
              text_visible text_offset text_other test_colour_swatches
              (S i) swatches' (offset_X + (width + spacing)) offset_Y in
          (fill_reference :: fill_test :: text ++ calls, result)
      end
  end.

(** The reference and the test swatches: every other swatch when comparing,
    all swatches for both otherwise. *)
Definition reference_of (compare_swatches : option string)
    (colour_swatches : list ColourSwatch) : list ColourSwatch :=
  match compare_swatches with
  | Some _ => even_items colour_swatches
  | None => colour_swatches
  end.

Definition test_of (compare_swatches : option string)
    (colour_swatches : list ColourSwatch) : list ColourSwatch :=
  match compare_swatches with
  | Some _ => odd_items colour_swatches
  | None => colour_swatches
  end.

(** The [settings] dictionary of [multi_colour_swatch_plot]. *)
Definition swatch_settings (limits : R * R * R * R) : Kwargs :=
  {| figure_size := None; bounding_box := None; x_tighten := Some true;
     y_tighten := Some true; limits := Some limits;
     margins := None; title := None; x_label := None; y_label := None;
     legend := None; legend_columns := None; legend_location := None;
     x_ticker := Some false; y_ticker := Some false;
     x_ticker_locator := None; y_ticker_locator := None; grid := None;
     grid_which := None; grid_axis := None; x_axis_line := None;
     y_axis_line := None; aspect := Some "equal"%string; no_axes := None;
     transparent_background := None; tight_layout := None;
     standalone := None; filename := None; with_boundaries := None;
     with_decorate := None |}.

(** [multi_colour_swatch_plot(colour_swatches, width=1, height=1, spacing=0,
    columns=None, text_parameters=None, background_colour=(1.0, 1.0, 1.0),
    compare_swatches=None, **kwargs)] *)
Definition multi_colour_swatch_plot (colour_swatches : list ColourSwatch)
    (width height spacing : R) (columns : option Z)
    (text_parameters : option TextParameters) (background_colour : Colour)
    (compare_swatches : option string) (kwargs : Kwargs)
  : list Call * (exn + option Figure) :=
  if match compare_swatches with
     | Some _ => negb (Nat.even (List.length colour_swatches))
     | None => false
     end
  then ([], inl AssertionError)
  else
    let reference_colour_swatches := reference_of compare_swatches colour_swatches in
    let test_colour_swatches := test_of compare_swatches colour_swatches in
    let compare_swatches :=
      lower (match compare_swatches with Some s => s | None => "None" end) in
    let columns :=
      setting (Z.of_nat (List.length reference_colour_swatches)) columns in
    let text_visible :=
      setting true (match text_parameters with
                    | Some p => visible p
                    | None => None
                    end) in
    let text_offset :=
      setting 0.05 (match text_parameters with
                    | Some p => offset p
                    | None => None
                    end) in
    let text_other :=
      match text_parameters with Some p => other p | None => [] end in
    let calls_canvas := canvas kwargs in
    let '(calls_loop, result) :=
      swatch_loop width height spacing columns compare_swatches text_visible
        text_offset text_other test_colour_swatches 0 reference_colour_swatches
        0 0 in
    match result with
    | inl e => (calls_canvas ++ calls_loop, inl e)
    | inr (offset_X, offset_Y) =>
        let x_min := 0 in
        let y_max := height in
        let x_max := Z.min (Z.of_nat (List.length colour_swatches)) columns in
        let x_max := IZR x_max * width + IZR x_max * spacing - spacing in
        let y_min := offset_Y in
        let settings := swatch_settings (x_min, x_max, y_min, y_max) in
        let settings := update settings kwargs in
        let '(calls_render, figure) := render settings in
        (calls_canvas ++ calls_loop ++
         [call_set_facecolor background_colour] ++ calls_render, inr figure)
    end.


(** What [image_plot] reads of the array [np.asarray(image)]: its first
    dimension and its values.  The array has at least one dimension. *)
Record Image : Type := {
  shape_0 : Z;
  image_values : list R
}.

(** [np.clip(a, a_min, a_max)] on one value *)
Definition clip (a_min a_max a : R) : R := Rmin (Rmax a a_min) a_max.

(** [text_parameters] of [image_plot]: the keys [text], [offset], [color]
    and [alpha], and further keyword arguments handed on to [pylab.text]. *)
Record ImageText : Type := {
  image_text : option string;
  image_text_offset : option R;
  image_text_color : option pyval;
  image_text_alpha : option pyval;
  image_text_other : list (string * pyval)
}.

(** The [settings] dictionary of [image_plot]. *)
Definition image_settings : Kwargs :=
  {| figure_size := None; bounding_box := Some (0, 1, 0, 1); x_tighten := None;
     y_tighten := None; limits := None; margins := None; title := None;
     x_label := None; y_label := None; legend := None; legend_columns := None;
     legend_location := None; x_ticker := Some false; y_ticker := Some false;
     x_ticker_locator := None; y_ticker_locator := None; grid := None;
     grid_which := None; grid_axis := None; x_axis_line := None;
     y_axis_line := None; aspect := None; no_axes := Some true;
     transparent_background := None; tight_layout := None; standalone := None;
     filename := None; with_boundaries := None; with_decorate := None |}.

(** The keyword [with_boundaries=False] of the call of [render]. *)
Definition without_boundaries : Kwargs :=
  {| figure_size := None; bounding_box := None; x_tighten := None;
     y_tighten := None; limits := None; margins := None; title := None;
     x_label := None; y_label := None; legend := None; legend_columns := None;
     legend_location := None; x_ticker := None; y_ticker := None;
     x_ticker_locator := None; y_ticker_locator := None; grid := None;
     grid_which := None; grid_axis := None; x_axis_line := None;
     y_axis_line := None; aspect := None; no_axes := None;
     transparent_background := None; tight_layout := None; standalone := None;
     filename := None; with_boundaries := Some false; with_decorate := None |}.

(** [image_plot(image, text_parameters=None, interpolation='nearest',
    colour_map=matplotlib.cm.Greys_r, **kwargs)]; the caller writes the
    interpolation, for which [None] is a value of its own, and the name of
    the colour map.  [render(with_boundaries=False, **settings)] is a
    [TypeError] when [settings] has the key [with_boundaries] as well. *)
Definition image_plot (image : Image) (text_parameters : option ImageText)
    (interpolation : option string) (colour_map : string) (kwargs : Kwargs)
  : list Call * (exn + option Figure) :=
  let text :=
    match text_parameters with Some p => image_text p | None => None end in
  let text_offset :=
    setting 5 (match text_parameters with
               | Some p => image_text_offset p
               | None => None
               end) in
  let color :=
    setting (VTuple [1; 1; 1])
      (match text_parameters with Some p => image_text_color p | None => None end) in
  let alpha :=
    setting (VNum 0.85)
      (match text_parameters with Some p => image_text_alpha p | None => None end) in
  let text_other :=
    match text_parameters with Some p => image_text_other p | None => [] end in
  let calls_image :=
    [call_imshow (map (clip 0 1) (image_values image)) interpolation colour_map] in
  let height := shape_0 image in
  let calls_text :=
    match text with
    | Some t =>
        [call_text (text_offset / 2) (IZR height - text_offset) t
           ([("text", VStr t); ("color", color); ("alpha", alpha)]%string
              ++ text_other)]
    | None => []
    end in
  let settings := update image_settings kwargs in
  let calls_canvas := canvas settings in
  match with_boundaries kwargs with
  | Some _ => (calls_image ++ calls_text ++ calls_canvas, inl TypeError)
  | None =>
      let '(calls_render, figure) := render (update settings without_boundaries) in
      (calls_image ++ calls_text ++ calls_canvas ++ calls_render, inr figure)
  end.

(** *** Names used to state what the functions do *)

(** Length of an axis. *)
Definition span (p : R * R) : R := snd p - fst p.

Definition largest_span (axes : Axes3D) : R :=
  Rmax (Rmax (Rabs (span (xlim axes))) (Rabs (span (ylim axes))))
       (Rabs (span (zlim axes))).

(** Lower left corner of the swatch of index [i] in a grid of [columns]
    columns. *)
Definition swatch_at (width height spacing : R) (columns : Z) (i : nat) : R * R :=
  (IZR (Z.of_nat i mod columns) * (width + spacing),
   - IZR (Z.of_nat i / columns) * (height + spacing)).

(** All calls that draw the swatch of index [i]. *)
Definition swatch_calls (width height spacing : R) (columns : Z)
    (compare_swatches : string) (text_visible : bool) (text_offset : R)
    (text_other : list (string * pyval))
    (i : nat) (colour_swatch test : ColourSwatch) : list Call :=
  let '(x_0, y_0) := swatch_at width height spacing columns i in
  draw_reference x_0 (x_0 + width) y_0 (y_0 + height) colour_swatch ::
  draw_test width height compare_swatches x_0 (x_0 + width) y_0 (y_0 + height)
    test ::
  draw_name text_visible text_offset text_other x_0 y_0 colour_swatch.

(** All calls of the loop on the reference swatches. *)
Definition grid_calls (width height spacing : R) (columns : Z)
    (compare_swatches : string) (text_visible : bool) (text_offset : R)
    (text_other : list (string * pyval))
    (reference test : list ColourSwatch) : list Call :=
  List.concat
    (map (fun '(i, colour_swatch) =>
            swatch_calls width height spacing columns compare_swatches
              text_visible text_offset text_other i colour_swatch
              (nth i test colour_swatch))
       (combine (seq 0 (List.length reference)) reference)).

(** The limits [(x_min, x_max, y_min, y_max)] for [count] swatches of which
    [references] are drawn as reference swatches. *)
Definition swatch_limits (width height spacing : R) (columns : Z)
    (count references : nat) : R * R * R * R :=
  let m := Z.min (Z.of_nat count) columns in
  (0,
   IZR m * width + IZR m * spacing - spacing,
   match references with
   | O => 0
   | S k => snd (swatch_at width height spacing columns k)
   end,
   height).

(** The settings read from [text_parameters]. *)
Definition text_visible_of (text_parameters : option TextParameters) : bool :=
  setting true (match text_parameters with Some p => visible p | None => None end).

Definition text_offset_of (text_parameters : option TextParameters) : R :=
  setting 0.05 (match text_parameters with Some p => offset p | None => None end).

Definition text_other_of (text_parameters : option TextParameters)
  : list (string * pyval) :=
  match text_parameters with Some p => other p | None => [] end.

(** The offsets with which the loop of [multi_colour_swatch_plot] enters
    index [i] when it has followed the grid so far. *)
Definition loop_enters (width height spacing : R) (columns : Z) (i : nat)
    (offset_X offset_Y : R) : Prop :=
  match i with
  | O => offset_X = 0 /\ offset_Y = 0
  | S j =>
      offset_X = fst (swatch_at width height spacing columns j) + (width + spacing) /\
      offset_Y = snd (swatch_at width height spacing columns j)
  end.

(** [str(compare_swatches).lower()] *)
Definition compare_mode (compare_swatches : option string) : string :=
  lower (match compare_swatches with Some s => s | None => "None" end).

End Plotting.

(** * Properties of the DIN99 transformations *)

(** ** The polar angle

    [atan2] gives the polar angle of a point: its cosine and sine are the
    coordinates divided by the radius. *)

Lemma sqrt_sum_squares_pos (x y : R) :
  x <> 0 \/ y <> 0 -> 0 < R_sqrt.sqrt (x * x + y * y).
Proof.
  intros Hxy. apply sqrt_lt_R0. destruct Hxy; nra.
Qed.

Lemma sqrt_square_scaled (x t : R) :
  0 < x -> R_sqrt.sqrt (1 + (t / x)²) = R_sqrt.sqrt (x * x + t * t) / x.
Proof.
  intros Hx.
  replace (1 + (t / x)²) with ((x * x + t * t) / (x * x))
    by (unfold Rsqr; field; lra).
  rewrite sqrt_div_alt by nra.
  rewrite sqrt_square by lra. reflexivity.
Qed.

Lemma cos_atan_div (x y : R) :
  0 < x -> Rtrigo_def.cos (atan (y / x)) = x / R_sqrt.sqrt (x * x + y * y).
Proof.
  intros Hx. rewrite cos_atan, sqrt_square_scaled by assumption.
  assert (0 < R_sqrt.sqrt (x * x + y * y)) by (apply sqrt_sum_squares_pos; lra).
  field; lra.
Qed.

Lemma sin_atan_div (x y : R) :
  0 < x -> Rtrigo_def.sin (atan (y / x)) = y / R_sqrt.sqrt (x * x + y * y).
Proof.
  intros Hx. rewrite sin_atan, sqrt_square_scaled by assumption.
  assert (0 < R_sqrt.sqrt (x * x + y * y)) by (apply sqrt_sum_squares_pos; lra).
  field; lra.
Qed.

Lemma atan_div_opp (x y : R) : x <> 0 -> atan (y / x) = atan ((- y) / (- x)).
Proof. intros Hx. f_equal. field; lra. Qed.

Lemma sum_squares_opp (x y : R) : - x * - x + - y * - y = x * x + y * y.
Proof. ring. Qed.

Lemma cos_atan2 (x y : R) :
  x <> 0 \/ y <> 0 ->
  Rtrigo_def.cos (atan2 y x) = x / R_sqrt.sqrt (x * x + y * y).
Proof.
  intros Hxy. unfold atan2.
  destruct (Rlt_dec 0 x) as [Hx | Hx]; [ now apply cos_atan_div | ].
  destruct (Rlt_dec x 0) as [Hx' | Hx'].
  - assert (Hc : Rtrigo_def.cos (atan (y / x)) = - x / R_sqrt.sqrt (x * x + y * y)).
    { rewrite (atan_div_opp x y) by lra.
      rewrite cos_atan_div by lra. now rewrite sum_squares_opp. }
    assert (0 < R_sqrt.sqrt (x * x + y * y)) by (apply sqrt_sum_squares_pos; lra).
    destruct (Rle_dec 0 y).
    + rewrite neg_cos, Hc. field; lra.
    + unfold Rminus. rewrite cos_plus, cos_neg, sin_neg, cos_PI, sin_PI, Hc. field; lra.
  - assert (x = 0) by lra; subst x.
    destruct (Rlt_dec 0 y); [ rewrite cos_PI2; lra | ].
    destruct (Rlt_dec y 0); [ rewrite cos_neg, cos_PI2; lra | lra ].
Qed.

Lemma sin_atan2 (x y : R) :
  x <> 0 \/ y <> 0 ->
  Rtrigo_def.sin (atan2 y x) = y / R_sqrt.sqrt (x * x + y * y).
Proof.
  intros Hxy. unfold atan2.
  destruct (Rlt_dec 0 x) as [Hx | Hx]; [ now apply sin_atan_div | ].
  destruct (Rlt_dec x 0) as [Hx' | Hx'].
  - assert (Hs : Rtrigo_def.sin (atan (y / x)) = - y / R_sqrt.sqrt (x * x + y * y)).
    { rewrite (atan_div_opp x y) by lra.
      rewrite sin_atan_div by lra. now rewrite sum_squares_opp. }
    assert (0 < R_sqrt.sqrt (x * x + y * y)) by (apply sqrt_sum_squares_pos; lra).
    destruct (Rle_dec 0 y).
    + rewrite neg_sin, Hs. field; lra.
    + unfold Rminus. rewrite sin_plus, cos_neg, sin_neg, cos_PI, sin_PI, Hs. field; lra.
  - assert (x = 0) by lra; subst x.
    replace (0 * 0 + y * y) with (y * y) by ring.
    destruct (Rlt_dec 0 y).
    { rewrite sin_PI2, sqrt_square by lra. field; lra. }
    destruct (Rlt_dec y 0); [ | lra ].
    rewrite sin_neg, sin_PI2.
    replace (y * y) with (- y * - y) by ring.
    rewrite sqrt_square by lra. field; lra.
Qed.

Lemma polar_cos (x y : R) :
  R_sqrt.sqrt (x * x + y * y) * Rtrigo_def.cos (atan2 y x) = x.
Proof.
  destruct (Req_dec_T x 0) as [Hx | Hx]; [ destruct (Req_dec_T y 0) as [Hy | Hy] | ].
  - subst. replace (0 * 0 + 0 * 0) with 0 by ring. rewrite sqrt_0. ring.
  - rewrite cos_atan2 by tauto.
    assert (0 < R_sqrt.sqrt (x * x + y * y)) by (apply sqrt_sum_squares_pos; tauto).
    field; lra.
  - rewrite cos_atan2 by tauto.
    assert (0 < R_sqrt.sqrt (x * x + y * y)) by (apply sqrt_sum_squares_pos; tauto).
    field; lra.
Qed.

Lemma polar_sin (x y : R) :
  R_sqrt.sqrt (x * x + y * y) * Rtrigo_def.sin (atan2 y x) = y.
Proof.
  destruct (Req_dec_T x 0) as [Hx | Hx]; [ destruct (Req_dec_T y 0) as [Hy | Hy] | ].
  - subst. replace (0 * 0 + 0 * 0) with 0 by ring. rewrite sqrt_0. ring.
  - rewrite sin_atan2 by tauto.
    assert (0 < R_sqrt.sqrt (x * x + y * y)) by (apply sqrt_sum_squares_pos; tauto).
    field; lra.
  - rewrite sin_atan2 by tauto.
    assert (0 < R_sqrt.sqrt (x * x + y * y)) by (apply sqrt_sum_squares_pos; tauto).
    field; lra.
Qed.

Lemma cos_sin_16 : cos_16 * cos_16 + sin_16 * sin_16 = 1.
Proof.
  unfold cos_16, sin_16.
  pose proof (sin2_cos2 (16 * (PI / 180))) as H. unfold Rsqr in H. lra.
Qed.

Lemma cos_radians_16 : cos (radians (Fin 16)) = Fin cos_16.
Proof. reflexivity. Qed.

Lemma sin_radians_16 : sin (radians (Fin 16)) = Fin sin_16.
Proof. reflexivity. Qed.

Lemma neg_fin (x : R) : neg (Fin x) = Fin (- x).
Proof. reflexivity. Qed.

Lemma add_fin (x y : R) : add (Fin x) (Fin y) = Fin (x + y).
Proof. reflexivity. Qed.

Lemma sub_fin (x y : R) : sub (Fin x) (Fin y) = Fin (x - y).
Proof. reflexivity. Qed.

Lemma mul_fin (x y : R) : mul (Fin x) (Fin y) = Fin (x * y).
Proof. reflexivity. Qed.

Lemma square_fin (x : R) : square (Fin x) = Fin (x * x).
Proof. reflexivity. Qed.

Lemma exp_fin (x : R) : exp (Fin x) = Fin (Rtrigo_def.exp x).
Proof. reflexivity. Qed.

Lemma cos_fin (x : R) : cos (Fin x) = Fin (Rtrigo_def.cos x).
Proof. reflexivity. Qed.

Lemma sin_fin (x : R) : sin (Fin x) = Fin (Rtrigo_def.sin x).
Proof. reflexivity. Qed.

Lemma arctan2_fin (y x : R) : arctan2 (Fin y) (Fin x) = Fin (atan2 y x).
Proof. reflexivity. Qed.

Lemma div_fin (x y : R) : y <> 0 -> div (Fin x) (Fin y) = Fin (x / y).
Proof. intros Hy. unfold div. destruct (Req_dec_T y 0); [ contradiction | reflexivity ]. Qed.

Lemma sqrt_fin (x : R) : 0 <= x -> sqrt (Fin x) = Fin (R_sqrt.sqrt x).
Proof. intros Hx. unfold sqrt. destruct (Rlt_dec x 0); [ lra | reflexivity ]. Qed.

Lemma log_fin (x : R) : 0 < x -> log (Fin x) = Fin (ln x).
Proof. intros Hx. unfold log. destruct (Rlt_dec 0 x); [ reflexivity | lra ]. Qed.

Lemma log_neg (x : R) : x < 0 -> log (Fin x) = NaN.
Proof.
  intros Hx. unfold log.
  destruct (Rlt_dec 0 x); [ lra | ]. destruct (Rlt_dec x 0); [ reflexivity | lra ].
Qed.

Lemma log_zero : log (Fin 0) = NInf.
Proof.
  unfold log.
  destruct (Rlt_dec 0 0); [ lra | ]. destruct (Rlt_dec 0 0); [ lra | reflexivity ].
Qed.

Create Rewrite HintDb np_fin.
#[local] Hint Rewrite cos_radians_16 sin_radians_16 neg_fin add_fin sub_fin mul_fin
  square_fin exp_fin cos_fin sin_fin arctan2_fin : np_fin.

(** The two functions on a single triple, operation by operation. *)
Ltac unfold_din99 :=
  unfold Lab_to_DIN99, DIN99_to_Lab, Lab_to_DIN99_C_99, Lab_to_DIN99_L_99,
    DIN99_to_Lab_G, DIN99_to_Lab_L, triple, chan_L, chan_a, chan_b;
  cbn [tsplit tstack ufunc ufunc2 triple_array fst snd pow_half].

Lemma radius_nonneg x y : 0 <= radius x y.
Proof. apply sqrt_pos. Qed.

Lemma radius_fin (x y : R) : sqrt (Fin (x * x + y * y)) = Fin (radius x y).
Proof. apply sqrt_fin. nra. Qed.

Lemma Lab_to_DIN99_fin (L a b kE kCH : R) :
  kCH * kE <> 0 ->
  let e := rot_e a b in
  let f := rot_f a b in
  let C_99 := ln (1 + 0.045 * radius e f) / (0.045 * kCH * kE) in
  Lab_to_DIN99 (triple L a b) (Fin kE) (Fin kCH) =
  (Lab_to_DIN99_L_99 (Fin L) (Fin kE),
   Fin (C_99 * Rtrigo_def.cos (atan2 f e)),
   Fin (C_99 * Rtrigo_def.sin (atan2 f e))).
Proof.
  intros Hk e f C_99. unfold_din99.
  autorewrite with np_fin. fold (rot_e a b) (rot_f a b). fold e f.
  rewrite radius_fin. autorewrite with np_fin.
  pose proof (radius_nonneg e f).
  rewrite (log_fin (1 + 0.045 * radius e f)) by lra.
  rewrite div_fin by nra.
  autorewrite with np_fin. reflexivity.
Qed.

Lemma DIN99_to_Lab_fin (L_99 : float) (a_99 b_99 kE kCH : R) :
  let h_99 := atan2 b_99 a_99 in
  let G := (Rtrigo_def.exp (0.045 * radius a_99 b_99 * kCH * kE) - 1) / 0.045 in
  let e := G * Rtrigo_def.cos h_99 in
  let f := G * Rtrigo_def.sin h_99 in
  DIN99_to_Lab (L_99, Fin a_99, Fin b_99) (Fin kE) (Fin kCH) =
  (DIN99_to_Lab_L L_99 (Fin kE),
   Fin (e * cos_16 - f / 0.7 * sin_16),
   Fin (e * sin_16 + f / 0.7 * cos_16)).
Proof.
  intros h_99 G e f. unfold_din99.
  autorewrite with np_fin. rewrite radius_fin.
  autorewrite with np_fin.
  rewrite (div_fin _ 0.045) by lra.
  autorewrite with np_fin.
  rewrite !(div_fin _ 0.7) by lra.
  autorewrite with np_fin. reflexivity.
Qed.

Lemma DIN99_to_Lab_L_fin (L_99 kE : R) :
  DIN99_to_Lab_L (Fin L_99) (Fin kE) =
  Fin ((Rtrigo_def.exp (L_99 * kE / 105.509) - 1) / 0.0158).
Proof.
  unfold_din99. autorewrite with np_fin.
  rewrite div_fin by lra. autorewrite with np_fin.
  rewrite div_fin by lra. reflexivity.
Qed.

Lemma Lab_to_DIN99_L_99_fin (L kE : R) :
  0 < 1 + 0.0158 * L ->
  Lab_to_DIN99_L_99 (Fin L) (Fin kE) = Fin (105.509 * ln (1 + 0.0158 * L) * kE).
Proof.
  intros HL. unfold_din99. autorewrite with np_fin.
  rewrite log_fin by exact HL. reflexivity.
Qed.

Lemma radius_scaled (c t : R) :
  0 <= c -> radius (c * Rtrigo_def.cos t) (c * Rtrigo_def.sin t) = c.
Proof.
  intros Hc. unfold radius.
  replace (c * Rtrigo_def.cos t * (c * Rtrigo_def.cos t) +
           c * Rtrigo_def.sin t * (c * Rtrigo_def.sin t))
    with (c * c * ((Rtrigo_def.sin t)² + (Rtrigo_def.cos t)²))
    by (unfold Rsqr; ring).
  rewrite sin2_cos2, Rmult_1_r. now apply sqrt_square.
Qed.

Lemma radius_zero (x y : R) : radius x y = 0 -> x = 0 /\ y = 0.
Proof.
  unfold radius. intros H0. apply sqrt_eq_0 in H0; nra.
Qed.

Lemma scaled_point_nonzero (c t : R) :
  0 < c -> c * Rtrigo_def.cos t <> 0 \/ c * Rtrigo_def.sin t <> 0.
Proof.
  intros Hc. pose proof (sin2_cos2 t) as Ht. unfold Rsqr in Ht.
  destruct (Req_dec_T (Rtrigo_def.cos t) 0) as [Hcos | Hcos]; [ right | left ];
    intros H0; apply Rmult_integral in H0; destruct H0 as [H0 | H0]; try lra.
  rewrite H0, Hcos in Ht. lra.
Qed.

(** The angle of a point does not change when the point is scaled by a
    positive factor: only its cosine and sine are needed. *)
Lemma cos_atan2_scaled (c t : R) :
  0 < c ->
  Rtrigo_def.cos (atan2 (c * Rtrigo_def.sin t) (c * Rtrigo_def.cos t)) = Rtrigo_def.cos t.
Proof.
  intros Hc.
  pose proof (scaled_point_nonzero c t Hc) as Hne.
  rewrite cos_atan2 by exact Hne.
  fold (radius (c * Rtrigo_def.cos t) (c * Rtrigo_def.sin t)).
  rewrite radius_scaled by lra. field; lra.
Qed.

Lemma sin_atan2_scaled (c t : R) :
  0 < c ->
  Rtrigo_def.sin (atan2 (c * Rtrigo_def.sin t) (c * Rtrigo_def.cos t)) = Rtrigo_def.sin t.
Proof.
  intros Hc.
  pose proof (scaled_point_nonzero c t Hc) as Hne.
  rewrite sin_atan2 by exact Hne.
  fold (radius (c * Rtrigo_def.cos t) (c * Rtrigo_def.sin t)).
  rewrite radius_scaled by lra. field; lra.
Qed.

(** Expansion undoes compression of a chroma magnitude. *)
Lemma expand_compress (g k : R) :
  0 <= g -> k <> 0 ->
  (Rtrigo_def.exp (0.045 * (ln (1 + 0.045 * g) / (0.045 * k)) * k) - 1) / 0.045 = g.
Proof.
  intros Hg Hk.
  replace (0.045 * (ln (1 + 0.045 * g) / (0.045 * k)) * k)
    with (ln (1 + 0.045 * g)) by (field; lra).
  rewrite exp_ln by lra. field; lra.
Qed.

Lemma compress_nonneg (g k : R) :
  0 <= g -> 0 < k -> 0 <= ln (1 + 0.045 * g) / (0.045 * k).
Proof.
  intros Hg Hk. apply Rmult_le_pos.
  - rewrite <- ln_1. destruct (Req_dec_T g 0) as [-> | Hne].
    + right. f_equal. lra.
    + left. apply ln_increasing; lra.
  - left. apply Rinv_0_lt_compat. lra.
Qed.

Lemma compress_zero (g k : R) :
  0 <= g -> 0 < k -> ln (1 + 0.045 * g) / (0.045 * k) = 0 -> g = 0.
Proof.
  intros Hg Hk H0.
  assert (Hln : ln (1 + 0.045 * g) = 0).
  { apply (Rmult_eq_compat_r (0.045 * k)) in H0.
    unfold Rdiv in H0. rewrite Rmult_assoc, Rinv_l, Rmult_1_r, Rmult_0_l in H0 by lra.
    exact H0. }
  rewrite <- ln_1 in Hln. apply ln_inv in Hln; lra.
Qed.

(** Polar form, compressed and expanded again, gives back the point. *)
Lemma chroma_roundtrip (e f kE kCH : R) :
  0 < kCH * kE ->
  let C_99 := ln (1 + 0.045 * radius e f) / (0.045 * kCH * kE) in
  let a_99 := C_99 * Rtrigo_def.cos (atan2 f e) in
  let b_99 := C_99 * Rtrigo_def.sin (atan2 f e) in
  let G := (Rtrigo_def.exp (0.045 * radius a_99 b_99 * kCH * kE) - 1) / 0.045 in
  G * Rtrigo_def.cos (atan2 b_99 a_99) = e /\
  G * Rtrigo_def.sin (atan2 b_99 a_99) = f.
Proof.
  intros Hk C_99 a_99 b_99 G.
  pose proof (radius_nonneg e f) as Hr.
  assert (HC : 0 <= C_99).
  { unfold C_99. rewrite Rmult_assoc. now apply compress_nonneg. }
  assert (HG : G = radius e f).
  { unfold G, a_99, b_99. rewrite radius_scaled by exact HC.
    unfold C_99.
    pose proof (expand_compress (radius e f) (kCH * kE) Hr) as Hx.
    rewrite <- Hx at 2 by lra. do 3 f_equal. field; nra. }
  rewrite HG. destruct HC as [HC | HC].
  - unfold a_99, b_99. rewrite cos_atan2_scaled, sin_atan2_scaled by exact HC.
    split; [ apply polar_cos | apply polar_sin ].
  - assert (H0 : radius e f = 0).
    { apply (compress_zero _ (kCH * kE)); [ exact Hr | exact Hk | ].
      symmetry. rewrite HC. unfold C_99. f_equal. ring. }
    rewrite H0. apply radius_zero in H0. destruct H0 as [-> ->]. lra.
Qed.

Lemma unrotate_a (a b : R) :
  rot_e a b * cos_16 - rot_f a b / 0.7 * sin_16 = a.
Proof.
  unfold rot_e, rot_f. pose proof cos_sin_16 as H.
  transitivity (a * (cos_16 * cos_16 + sin_16 * sin_16)); [ field; lra | rewrite H; ring ].
Qed.

Lemma unrotate_b (a b : R) :
  rot_e a b * sin_16 + rot_f a b / 0.7 * cos_16 = b.
Proof.
  unfold rot_e, rot_f. pose proof cos_sin_16 as H.
  transitivity (b * (cos_16 * cos_16 + sin_16 * sin_16)); [ field; lra | rewrite H; ring ].
Qed.

Lemma chroma_channels_roundtrip_fin (L a b kE kCH : R) :
  0 < kCH * kE ->
  let t := DIN99_to_Lab (Lab_to_DIN99 (triple L a b) (Fin kE) (Fin kCH)) (Fin kE) (Fin kCH) in
  chan_a t = Fin a /\ chan_b t = Fin b.
Proof.
  intros Hk. cbv zeta.
  rewrite Lab_to_DIN99_fin by lra. cbv zeta.
  rewrite DIN99_to_Lab_fin. cbv zeta.
  destruct (chroma_roundtrip (rot_e a b) (rot_f a b) kE kCH Hk) as [He Hf].
  cbv zeta in He, Hf. rewrite He, Hf.
  unfold chan_a, chan_b. cbn [fst snd].
  now rewrite unrotate_a, unrotate_b.
Qed.

(** ** The lightness channel *)

Lemma Lab_to_DIN99_chan_L (Lab : Triple) (k_E k_CH : float) :
  chan_L (Lab_to_DIN99 Lab k_E k_CH) = Lab_to_DIN99_L_99 (chan_L Lab) k_E.
Proof. destruct Lab as [[L a] b]. reflexivity. Qed.

Lemma DIN99_to_Lab_chan_L (Lab_99 : Triple) (k_E k_CH : float) :
  chan_L (DIN99_to_Lab Lab_99 k_E k_CH) = DIN99_to_Lab_L (chan_L Lab_99) k_E.
Proof. destruct Lab_99 as [[L a] b]. reflexivity. Qed.

(** Expansion after compression raises [1 + 0.0158 * L] to the power
    [k_E * k_E]. *)
Lemma lightness_roundtrip_fin (L kE : R) :
  0 < 1 + 0.0158 * L ->
  DIN99_to_Lab_L (Lab_to_DIN99_L_99 (Fin L) (Fin kE)) (Fin kE) =
  Fin ((Rpower (1 + 0.0158 * L) (kE * kE) - 1) / 0.0158).
Proof.
  intros HL. rewrite Lab_to_DIN99_L_99_fin by exact HL.
  rewrite DIN99_to_Lab_L_fin. unfold Rpower. do 4 f_equal. field; lra.
Qed.

Lemma lightness_roundtrip_k_E_1 (L : R) :
  0 < 1 + 0.0158 * L ->
  DIN99_to_Lab_L (Lab_to_DIN99_L_99 (Fin L) (Fin 1)) (Fin 1) = Fin L.
Proof.
  intros HL. rewrite lightness_roundtrip_fin by exact HL.
  rewrite Rmult_1_r, Rpower_1 by exact HL. f_equal. field; lra.
Qed.

(** With [k_E = 1] the two functions are inverse to each other. *)
Lemma roundtrip_k_E_1 (L a b kCH : R) :
  0 < 1 + 0.0158 * L -> 0 < kCH ->
  DIN99_to_Lab (Lab_to_DIN99 (triple L a b) (Fin 1) (Fin kCH)) (Fin 1) (Fin kCH) =
  triple L a b.
Proof.
  intros HL Hk.
  assert (Hk1 : 0 < kCH * 1) by lra.
  destruct (chroma_channels_roundtrip_fin L a b 1 kCH Hk1) as [Ha Hb].
  pose proof (DIN99_to_Lab_chan_L
                (Lab_to_DIN99 (triple L a b) (Fin 1) (Fin kCH)) (Fin 1) (Fin kCH)) as Hl.
  rewrite Lab_to_DIN99_chan_L in Hl. unfold triple at 2 in Hl. unfold chan_L at 2 in Hl.
  cbn [fst snd] in Hl. rewrite lightness_roundtrip_k_E_1 in Hl by exact HL.
  destruct (DIN99_to_Lab _ _ _) as [[L' a'] b'].
  unfold chan_L, chan_a, chan_b in *. cbn [fst snd] in *. now subst.
Qed.

(** C1: with [k_E = 2] the round trip does not give back the lightness: from
    [L = 100] it returns [(2.58 ^ 4 - 1) / 0.0158], which is more than 2700. *)
Theorem roundtrip_lightness_k_E_2 :
  chan_L (DIN99_to_Lab (Lab_to_DIN99 (triple 100 0 0) (Fin 2) (Fin 1)) (Fin 2) (Fin 1)) =
  Fin ((2.58 ^ 4 - 1) / 0.0158) /\
  2700 < (2.58 ^ 4 - 1) / 0.0158.
Proof.
  split; [ | lra ].
  rewrite DIN99_to_Lab_chan_L, Lab_to_DIN99_chan_L.
  unfold triple, chan_L. cbn [fst snd].
  rewrite lightness_roundtrip_fin by lra.
  replace (1 + 0.0158 * 100) with 2.58 by lra.
  replace (2 * 2) with (INR 4) by (simpl; lra).
  rewrite Rpower_pow by lra. reflexivity.
Qed.

(** C2: [DIN99_to_Lab] returns the lightness
    [(exp (L_99 * k_E / 105.509) - 1) / 0.0158], multiplying [L_99] by [k_E]
    as [Lab_to_DIN99] does in [L_99 = 105.509 * ln (1 + 0.0158 * L) * k_E]. *)
Theorem lightness_formulas (L_99 a_99 b_99 L a b kE kCH : R) :
  0 < 1 + 0.0158 * L ->
  chan_L (DIN99_to_Lab (triple L_99 a_99 b_99) (Fin kE) (Fin kCH)) =
    Fin ((Rtrigo_def.exp (L_99 * kE / 105.509) - 1) / 0.0158) /\
  chan_L (Lab_to_DIN99 (triple L a b) (Fin kE) (Fin kCH)) =
    Fin (105.509 * ln (1 + 0.0158 * L) * kE).
Proof.
  intros HL. rewrite DIN99_to_Lab_chan_L, Lab_to_DIN99_chan_L. split.
  - apply DIN99_to_Lab_L_fin.
  - now apply Lab_to_DIN99_L_99_fin.
Qed.

Lemma lightness_formulas_witness :
  chan_L (DIN99_to_Lab (triple 50 3 4) (Fin 2) (Fin 3)) =
    Fin ((Rtrigo_def.exp (50 * 2 / 105.509) - 1) / 0.0158) /\
  chan_L (Lab_to_DIN99 (triple 100 3 4) (Fin 2) (Fin 3)) =
    Fin (105.509 * ln (1 + 0.0158 * 100) * 2).
Proof. apply (lightness_formulas 50 3 4 100 3 4 2 3). lra. Defined.

(** ** The chroma channels *)

Lemma chroma_expand_compress_fin (G kE kCH : R) :
  0 <= G -> kCH * kE <> 0 ->
  DIN99_to_Lab_G (Lab_to_DIN99_C_99 (Fin G) (Fin kE) (Fin kCH)) (Fin kE) (Fin kCH) =
  Fin G.
Proof.
  intros HG Hk. unfold_din99. autorewrite with np_fin.
  rewrite log_fin by lra. rewrite div_fin by nra.
  autorewrite with np_fin. rewrite div_fin by lra. f_equal.
  rewrite <- (expand_compress G (kCH * kE) HG Hk) at 2.
  do 3 f_equal. field; nra.
Qed.

(** C3: for positive factors the chroma expansion of [DIN99_to_Lab] undoes
    the chroma compression of [Lab_to_DIN99], and the round trip gives back
    the [a] and [b] channels of every Lab triple, whatever its [L]. *)
Theorem chroma_roundtrip_channels (G L a b kE kCH : R) :
  0 < kE -> 0 < kCH -> 0 <= G ->
  DIN99_to_Lab_G (Lab_to_DIN99_C_99 (Fin G) (Fin kE) (Fin kCH)) (Fin kE) (Fin kCH) =
    Fin G /\
  chan_a (DIN99_to_Lab (Lab_to_DIN99 (triple L a b) (Fin kE) (Fin kCH))
            (Fin kE) (Fin kCH)) = Fin a /\
  chan_b (DIN99_to_Lab (Lab_to_DIN99 (triple L a b) (Fin kE) (Fin kCH))
            (Fin kE) (Fin kCH)) = Fin b.
Proof.
  intros HkE HkCH HG.
  assert (Hk : 0 < kCH * kE) by now apply Rmult_lt_0_compat.
  split.
  - apply chroma_expand_compress_fin; lra.
  - now apply chroma_channels_roundtrip_fin.
Qed.

Lemma chroma_roundtrip_channels_witness :
  DIN99_to_Lab_G (Lab_to_DIN99_C_99 (Fin 10) (Fin 2) (Fin 3)) (Fin 2) (Fin 3) =
    Fin 10 /\
  chan_a (DIN99_to_Lab (Lab_to_DIN99 (triple (-100) 5 (-7)) (Fin 2) (Fin 3))
            (Fin 2) (Fin 3)) = Fin 5 /\
  chan_b (DIN99_to_Lab (Lab_to_DIN99 (triple (-100) 5 (-7)) (Fin 2) (Fin 3))
            (Fin 2) (Fin 3)) = Fin (-7).
Proof. apply (chroma_roundtrip_channels 10 (-100) 5 (-7) 2 3); lra. Defined.

(** ** Linearity of [L_99] in [k_E] *)

Lemma mul_inf_times_one (positive : bool) (kE : R) :
  mul (Fin kE) (mul (inf_times positive 105.509) (Fin 1)) =
  mul (inf_times positive 105.509) (Fin kE).
Proof.
  unfold inf_times.
  destruct (Rlt_dec 0 105.509); [ | lra ].
  destruct positive; cbn; unfold inf_times;
    destruct (Rlt_dec 0 1); try lra; reflexivity.
Qed.

(** C4: the [L_99] channel computed with the factor [k_E] is [k_E] times the
    [L_99] channel computed with the factor 1, for every Lab triple and
    every [k_CH]. *)
Theorem L_99_linear_in_k_E (L a b kE : R) (k_CH : float) :
  chan_L (Lab_to_DIN99 (triple L a b) (Fin kE) k_CH) =
  mul (Fin kE) (chan_L (Lab_to_DIN99 (triple L a b) (Fin 1) k_CH)).
Proof.
  rewrite !Lab_to_DIN99_chan_L. unfold_din99.
  autorewrite with np_fin.
  destruct (log (Fin (1 + 0.0158 * L))) as [r | | | ].
  - autorewrite with np_fin. f_equal. ring.
  - symmetry. apply (mul_inf_times_one true).
  - symmetry. apply (mul_inf_times_one false).
  - reflexivity.
Qed.

(** ** Lightness outside the domain of the logarithm *)

Lemma L_99_below_domain (L : R) (k_E : float) :
  1 + 0.0158 * L < 0 -> Lab_to_DIN99_L_99 (Fin L) k_E = NaN.
Proof.
  intros HL. unfold_din99. autorewrite with np_fin.
  rewrite log_neg by exact HL. reflexivity.
Qed.

Lemma L_99_at_pole (L kE : R) :
  1 + 0.0158 * L = 0 -> Lab_to_DIN99_L_99 (Fin L) (Fin kE) = inf_times false kE.
Proof.
  intros HL. unfold_din99. autorewrite with np_fin.
  rewrite HL, log_zero.
  assert (H105 : mul (Fin 105.509) NInf = NInf).
  { cbn. unfold inf_times. destruct (Rlt_dec 0 105.509); [ reflexivity | lra ]. }
  now rewrite H105.
Qed.

Lemma inf_times_not_finite (positive : bool) (r : R) :
  is_finite (inf_times positive r) = false.
Proof.
  unfold inf_times.
  destruct (Rlt_dec 0 r); [ now destruct positive | ].
  destruct (Rlt_dec r 0); [ now destruct positive | reflexivity ].
Qed.

(** C5, as stated, fails where [1 + 0.0158 * L] is exactly zero: the
    logarithm is [-inf] there, not [nan], and so is [L_99]. *)
Lemma L_99_at_pole_not_nan :
  1 + 0.0158 * (-1 / 0.0158) <= 0 /\
  chan_L (Lab_to_DIN99 (triple (-1 / 0.0158) 0 0) (Fin 1) (Fin 1)) = NInf /\
  is_nan (chan_L (Lab_to_DIN99 (triple (-1 / 0.0158) 0 0) (Fin 1) (Fin 1))) = false.
Proof.
  assert (H0 : 1 + 0.0158 * (-1 / 0.0158) = 0) by (field; lra).
  assert (HL : chan_L (Lab_to_DIN99 (triple (-1 / 0.0158) 0 0) (Fin 1) (Fin 1)) = NInf).
  { rewrite Lab_to_DIN99_chan_L. unfold triple, chan_L. cbn [fst snd].
    rewrite L_99_at_pole by exact H0. unfold inf_times.
    destruct (Rlt_dec 0 1); [ reflexivity | lra ]. }
  split; [ lra | ]. split; [ exact HL | now rewrite HL ].
Qed.

(** C5, amended: when [1 + 0.0158 * L <= 0] the [L_99] channel is never
    finite.  It is [nan] when [1 + 0.0158 * L < 0]; when
    [1 + 0.0158 * L = 0] it is [-inf] for [k_E > 0], [+inf] for [k_E < 0]
    and [nan] for [k_E = 0]. *)
Theorem L_99_out_of_domain (L a b kE : R) (k_CH : float) :
  1 + 0.0158 * L <= 0 ->
  let L_99 := chan_L (Lab_to_DIN99 (triple L a b) (Fin kE) k_CH) in
  is_finite L_99 = false /\
  (1 + 0.0158 * L < 0 -> L_99 = NaN) /\
  (1 + 0.0158 * L = 0 -> 0 < kE -> L_99 = NInf) /\
  (1 + 0.0158 * L = 0 -> kE < 0 -> L_99 = PInf) /\
  (1 + 0.0158 * L = 0 -> kE = 0 -> L_99 = NaN).
Proof.
  intros HL L_99. unfold L_99. rewrite Lab_to_DIN99_chan_L.
  unfold triple, chan_L. cbn [fst snd].
  split; [ | split; [ | split; [ | split ] ] ].
  - destruct HL as [HL | HL].
    + now rewrite L_99_below_domain.
    + rewrite L_99_at_pole by exact HL. apply inf_times_not_finite.
  - apply L_99_below_domain.
  - intros H0 Hk. rewrite L_99_at_pole by exact H0. unfold inf_times.
    destruct (Rlt_dec 0 kE); [ reflexivity | lra ].
  - intros H0 Hk. rewrite L_99_at_pole by exact H0. unfold inf_times.
    destruct (Rlt_dec 0 kE); [ lra | ].
    destruct (Rlt_dec kE 0); [ reflexivity | lra ].
  - intros H0 Hk. rewrite L_99_at_pole by exact H0. unfold inf_times.
    destruct (Rlt_dec 0 kE); [ lra | ].
    destruct (Rlt_dec kE 0); [ lra | reflexivity ].
Qed.

Lemma L_99_out_of_domain_witness :
  (1 + 0.0158 * (-100) <= 0 /\
   is_finite (chan_L (Lab_to_DIN99 (triple (-100) 1 2) (Fin 1) (Fin 1))) = false /\
   chan_L (Lab_to_DIN99 (triple (-100) 1 2) (Fin 1) (Fin 1)) = NaN) /\
  (1 + 0.0158 * (-1 / 0.0158) <= 0 /\
   chan_L (Lab_to_DIN99 (triple (-1 / 0.0158) 1 2) (Fin 1) (Fin 1)) = NInf /\
   chan_L (Lab_to_DIN99 (triple (-1 / 0.0158) 1 2) (Fin (-1)) (Fin 1)) = PInf /\
   chan_L (Lab_to_DIN99 (triple (-1 / 0.0158) 1 2) (Fin 0) (Fin 1)) = NaN).
Proof.
  assert (Hlow : 1 + 0.0158 * (-100) <= 0) by lra.
  assert (Hpole : 1 + 0.0158 * (-1 / 0.0158) = 0) by (field; lra).
  assert (Hpole' : 1 + 0.0158 * (-1 / 0.0158) <= 0) by (right; exact Hpole).
  destruct (L_99_out_of_domain (-100) 1 2 1 (Fin 1) Hlow) as (Hfin & Hnan & _).
  destruct (L_99_out_of_domain (-1 / 0.0158) 1 2 1 (Fin 1) Hpole')
    as (_ & _ & Hpos & _).
  destruct (L_99_out_of_domain (-1 / 0.0158) 1 2 (-1) (Fin 1) Hpole')
    as (_ & _ & _ & Hneg & _).
  destruct (L_99_out_of_domain (-1 / 0.0158) 1 2 0 (Fin 1) Hpole')
    as (_ & _ & _ & _ & Hzero).
  split; [ split; [ exact Hlow | split ] | split; [ exact Hpole' | split; [ | split ] ] ].
  - exact Hfin.
  - apply Hnan. lra.
  - apply Hpos; [ exact Hpole | lra ].
  - apply Hneg; [ exact Hpole | lra ].
  - apply Hzero; [ exact Hpole | reflexivity ].
Defined.

(** ** Achromatic colours and the zero point *)

Lemma rot_e_0 : rot_e 0 0 = 0.
Proof. unfold rot_e. ring. Qed.

Lemma rot_f_0 : rot_f 0 0 = 0.
Proof. unfold rot_f. ring. Qed.

Lemma radius_0 : radius 0 0 = 0.
Proof. unfold radius. replace (0 * 0 + 0 * 0) with 0 by ring. apply sqrt_0. Qed.

Lemma Lab_to_DIN99_achromatic (L kE kCH : R) :
  kCH * kE <> 0 ->
  Lab_to_DIN99 (triple L 0 0) (Fin kE) (Fin kCH) =
  (Lab_to_DIN99_L_99 (Fin L) (Fin kE), Fin 0, Fin 0).
Proof.
  intros Hk. rewrite Lab_to_DIN99_fin by exact Hk. cbv zeta.
  rewrite rot_e_0, rot_f_0, radius_0.
  replace (1 + 0.045 * 0) with 1 by ring. rewrite ln_1.
  unfold Rdiv. now rewrite !Rmult_0_l.
Qed.

(** With a zero factor the chroma compression divides zero by zero. *)
Lemma Lab_to_DIN99_achromatic_k_E_0 (L : R) :
  Lab_to_DIN99 (triple L 0 0) (Fin 0) (Fin 1) =
  (Lab_to_DIN99_L_99 (Fin L) (Fin 0), NaN, NaN).
Proof.
  unfold_din99. autorewrite with np_fin.
  fold (rot_e 0 0) (rot_f 0 0). rewrite rot_e_0, rot_f_0.
  rewrite radius_fin, radius_0. autorewrite with np_fin.
  replace (1 + 0.045 * 0) with 1 by ring.
  rewrite (log_fin 1) by lra. rewrite ln_1.
  assert (Hdiv : div (Fin 0) (Fin (0.045 * 1 * 0)) = NaN).
  { unfold div. destruct (Req_dec_T (0.045 * 1 * 0) 0); [ | lra ].
    destruct (Rlt_dec 0 0); [ lra | reflexivity ]. }
  now rewrite Hdiv.
Qed.

(** C7, as stated, fails for [k_E = 0]: the chroma channels of an achromatic
    colour are then [nan]. *)
Lemma achromatic_k_E_0_nan :
  chan_a (Lab_to_DIN99 (triple 50 0 0) (Fin 0) (Fin 1)) = NaN /\
  chan_b (Lab_to_DIN99 (triple 50 0 0) (Fin 0) (Fin 1)) = NaN /\
  NaN <> Fin 0.
Proof.
  rewrite Lab_to_DIN99_achromatic_k_E_0. repeat split. discriminate.
Qed.

(** C7, amended: for every [L] and all factors with [k_CH * k_E <> 0], the
    [a_99] and [b_99] channels of [Lab_to_DIN99 (L, 0, 0)] are exactly 0. *)
Theorem achromatic_zero_chroma (L kE kCH : R) :
  kCH * kE <> 0 ->
  chan_a (Lab_to_DIN99 (triple L 0 0) (Fin kE) (Fin kCH)) = Fin 0 /\
  chan_b (Lab_to_DIN99 (triple L 0 0) (Fin kE) (Fin kCH)) = Fin 0.
Proof.
  intros Hk. rewrite Lab_to_DIN99_achromatic by exact Hk. now split.
Qed.

Lemma achromatic_zero_chroma_witness :
  chan_a (Lab_to_DIN99 (triple 50 0 0) (Fin 2) (Fin (-3))) = Fin 0 /\
  chan_b (Lab_to_DIN99 (triple 50 0 0) (Fin 2) (Fin (-3))) = Fin 0.
Proof. apply (achromatic_zero_chroma 50 2 (-3)). lra. Defined.

(** C8, as stated, fails for [k_E = 0] in the forward direction. *)
Lemma zero_point_k_E_0 :
  Lab_to_DIN99 (triple 0 0 0) (Fin 0) (Fin 1) <> triple 0 0 0.
Proof.
  rewrite Lab_to_DIN99_achromatic_k_E_0. unfold triple. intros Heq.
  inversion Heq.
Qed.

Lemma exp_0_minus_1 (c : R) : c <> 0 -> (Rtrigo_def.exp 0 - 1) / c = 0.
Proof. intros Hc. rewrite exp_0. field. exact Hc. Qed.

(** C8, amended: [(0, 0, 0)] is a fixed point of [DIN99_to_Lab] for all
    factors, and of [Lab_to_DIN99] for all factors with
    [k_CH * k_E <> 0]. *)
Theorem zero_point (kE kCH : R) :
  (kCH * kE <> 0 ->
   Lab_to_DIN99 (triple 0 0 0) (Fin kE) (Fin kCH) = triple 0 0 0) /\
  DIN99_to_Lab (triple 0 0 0) (Fin kE) (Fin kCH) = triple 0 0 0.
Proof.
  split.
  - intros Hk. rewrite Lab_to_DIN99_achromatic by exact Hk.
    rewrite Lab_to_DIN99_L_99_fin by lra.
    replace (1 + 0.0158 * 0) with 1 by ring. rewrite ln_1.
    unfold triple. now rewrite Rmult_0_r, Rmult_0_l.
  - unfold triple at 1. rewrite DIN99_to_Lab_fin, DIN99_to_Lab_L_fin. cbv zeta.
    rewrite radius_0.
    replace (0.045 * 0 * kCH * kE) with 0 by ring.
    replace (0 * kE / 105.509) with 0 by (field; lra).
    rewrite !exp_0_minus_1 by lra.
    unfold triple. repeat f_equal; unfold Rdiv; ring.
Qed.

Lemma zero_point_witness :
  Lab_to_DIN99 (triple 0 0 0) (Fin 2) (Fin 3) = triple 0 0 0 /\
  DIN99_to_Lab (triple 0 0 0) (Fin 2) (Fin 3) = triple 0 0 0.
Proof.
  split.
  - apply (proj1 (zero_point 2 3)). lra.
  - apply (proj2 (zero_point 2 3)).
Defined.

(** ** Totality of the inverse *)


(** ** Batches *)

Lemma Lab_to_DIN99_batch (Labs : list Triple) (k_E k_CH : float) :
  Lab_to_DIN99 Labs k_E k_CH = map (fun Lab => Lab_to_DIN99 Lab k_E k_CH) Labs.
Proof.
  induction Labs as [ | [[L a] b] Labs IH ]; [ reflexivity | ].
  cbn [map]. rewrite <- IH. reflexivity.
Qed.

Lemma DIN99_to_Lab_batch (Labs : list Triple) (k_E k_CH : float) :
  DIN99_to_Lab Labs k_E k_CH = map (fun Lab => DIN99_to_Lab Lab k_E k_CH) Labs.
Proof.
  induction Labs as [ | [[L a] b] Labs IH ]; [ reflexivity | ].
  cbn [map]. rewrite <- IH. reflexivity.
Qed.


(** ** Enclosures of [PI], [cos], [sin], [exp] and [ln] *)

Ltac INR_to_IZR H :=
  repeat (rewrite INR_IZR_INZ in H);
  cbn [Z.of_nat Pos.of_succ_nat Pos.succ] in H.

(** [PI] from the Machin-like series of [2 * atan (/3) + atan (/7)]. *)
Lemma PI_bounds : 3.141592653585 < PI < 3.141592653595.
Proof.
  pose proof (PI_2_3_7_ineq 5) as [Hlo Hhi].
  cbn [sum_f_R0 Nat.mul Nat.add] in Hlo, Hhi.
  unfold tg_alt, PI_2_3_7_tg, Ratan_seq in Hlo, Hhi.
  cbn [Nat.mul Nat.add] in Hlo, Hhi.
  INR_to_IZR Hlo. INR_to_IZR Hhi.
  split; lra.
Qed.

Lemma INR_fact_S (n : nat) : INR (fact (S n)) = INR (S n) * INR (fact n).
Proof. rewrite fact_simpl, mult_INR. reflexivity. Qed.

Ltac eval_series H :=
  cbn [sum_f_R0 Nat.mul Nat.add] in H;
  unfold cos_term, sin_term, tg_alt in H;
  cbn [Nat.mul Nat.add] in H;
  repeat (rewrite INR_fact_S in H);
  change (fact 0) with 1%nat in H;
  INR_to_IZR H.

Lemma radians_16_bounds : 0.2792526803186 < 16 * (PI / 180) < 0.2792526803196.
Proof. pose proof PI_bounds. split; lra. Qed.

Lemma cos_16_enclosure : 0.9612616959380 < cos_16 < 0.9612616959386.
Proof.
  unfold cos_16. set (x16 := 16 * (PI / 180)).
  pose proof radians_16_bounds as [Hlo Hhi]. fold x16 in Hlo, Hhi.
  pose proof PI_bounds as [Hp _].
  assert (Hc1 : Rtrigo_def.cos x16 <= Rtrigo_def.cos 0.2792526803186)
    by (apply cos_decr_1; lra).
  assert (Hc2 : Rtrigo_def.cos 0.2792526803196 <= Rtrigo_def.cos x16)
    by (apply cos_decr_1; lra).
  pose proof (pre_cos_bound 0.2792526803186 2 ltac:(lra) ltac:(lra)) as [_ Hup].
  pose proof (pre_cos_bound 0.2792526803196 2 ltac:(lra) ltac:(lra)) as [Hdn _].
  unfold cos_approx in Hup, Hdn.
  eval_series Hup. eval_series Hdn.
  split; lra.
Qed.

Lemma sin_16_enclosure : 0.2756373558165 < sin_16 < 0.2756373558175.
Proof.
  unfold sin_16. set (x16 := 16 * (PI / 180)).
  pose proof radians_16_bounds as [Hlo Hhi]. fold x16 in Hlo, Hhi.
  pose proof PI_bounds as [Hp _].
  assert (Hs1 : Rtrigo_def.sin 0.2792526803186 <= Rtrigo_def.sin x16)
    by (apply sin_incr_1; lra).
  assert (Hs2 : Rtrigo_def.sin x16 <= Rtrigo_def.sin 0.2792526803196)
    by (apply sin_incr_1; lra).
  pose proof (pre_sin_bound 0.2792526803186 2 ltac:(lra) ltac:(lra)) as [Hdn _].
  pose proof (pre_sin_bound 0.2792526803196 2 ltac:(lra) ltac:(lra)) as [_ Hup].
  unfold sin_approx in Hup, Hdn.
  eval_series Hup. eval_series Hdn.
  split; lra.
Qed.

Lemma exp_seq_decreasing (x : R) : 0 <= x <= 1 -> Un_decreasing (exp_seq x).
Proof.
  intros [H0 H1] n. unfold exp_seq.
  rewrite INR_fact_S. cbn [pow].
  pose proof (INR_fact_lt_0 n) as Hf.
  pose proof (pow_le x n H0) as Hp.
  assert (HS : 1 <= INR (S n)) by (rewrite S_INR; pose proof (pos_INR n); lra).
  assert (Hq : 0 <= x ^ n / INR (fact n)).
  { apply Rmult_le_pos; [ exact Hp | left; now apply Rinv_0_lt_compat ]. }
  replace (x * x ^ n / (INR (S n) * INR (fact n)))
    with (x ^ n / INR (fact n) * (x / INR (S n))) by (field; lra).
  rewrite <- (Rmult_1_r (x ^ n / INR (fact n))) at 2.
  apply Rmult_le_compat_l; [ exact Hq | ].
  apply (Rmult_le_reg_r (INR (S n))); [ lra | ].
  unfold Rdiv. rewrite Rmult_assoc, Rinv_l by lra. lra.
Qed.

Lemma exp_neg_series (x : R) :
  Un_cv (sum_f_R0 (tg_alt (exp_seq x))) (Rtrigo_def.exp (- x)).
Proof.
  unfold Rtrigo_def.exp. destruct (exist_exp (- x)) as [l Hl]. cbn [proj1_sig].
  intros eps Heps. destruct (Hl eps Heps) as [N HN].
  exists N. intros n Hn. specialize (HN n Hn).
  replace (sum_f_R0 (tg_alt (exp_seq x)) n)
    with (sum_f_R0 (fun i : nat => / INR (fact i) * (- x) ^ i) n); [ exact HN | ].
  apply sum_eq. intros i _. unfold tg_alt, exp_seq.
  replace (- x) with (-1 * x) by ring. rewrite Rpow_mult_distr. field.
  apply INR_fact_neq_0.
Qed.

(** Partial sums of the alternating series enclose [Rtrigo_def.exp (- x)]. *)
Lemma exp_neg_bounds (x : R) (N : nat) :
  0 <= x <= 1 ->
  sum_f_R0 (tg_alt (exp_seq x)) (S (2 * N)) <= Rtrigo_def.exp (- x) <=
  sum_f_R0 (tg_alt (exp_seq x)) (2 * N).
Proof.
  intros Hx. apply alternated_series_ineq.
  - now apply exp_seq_decreasing.
  - apply cv_speed_pow_fact.
  - apply exp_neg_series.
Qed.

Lemma exp_tail_0 (x : R) (m : nat) : exp_tail x m 0 = 1.
Proof.
  unfold exp_tail. rewrite Nat.add_0_r. cbn [pow].
  field. apply INR_fact_neq_0.
Qed.

Lemma exp_tail_S (x : R) (m i : nat) :
  exp_tail x m (S i) = exp_tail x (S m) i * (- x / INR (S m)).
Proof.
  unfold exp_tail. rewrite Nat.add_succ_r. change (S (m + i)) with (S m + i)%nat.
  rewrite (INR_fact_S m). cbn [pow].
  pose proof (INR_fact_neq_0 m). pose proof (INR_fact_neq_0 (S m + i)).
  assert (INR (S m) <> 0) by (apply not_0_INR; discriminate).
  field. repeat split; assumption.
Qed.

Lemma exp_tail_horner (x : R) (n : nat) :
  forall m : nat, sum_f_R0 (exp_tail x m) n = exp_horner x (INR (S m)) n.
Proof.
  induction n as [ | n IH ]; intros m.
  - cbn [sum_f_R0 exp_horner]. apply exp_tail_0.
  - rewrite decomp_sum by apply Nat.lt_0_succ. cbn [pred exp_horner].
    rewrite exp_tail_0.
    rewrite (sum_eq _ (fun i => exp_tail x (S m) i * (- x / INR (S m))))
      by (intros i _; apply exp_tail_S).
    rewrite <- scal_sum, IH. rewrite (S_INR (S m)). 
    unfold Rdiv. ring.
Qed.

Lemma exp_seq_horner (x : R) (n : nat) :
  sum_f_R0 (tg_alt (exp_seq x)) n = exp_horner x 1 n.
Proof.
  transitivity (sum_f_R0 (exp_tail x 0) n); [ | apply exp_tail_horner ].
  apply sum_eq. intros i _. unfold tg_alt, exp_seq, exp_tail.
  cbn [fact Nat.add INR]. unfold Rdiv. ring.
Qed.

Lemma exp_neg_horner_bounds (x : R) (N : nat) :
  0 <= x <= 1 ->
  exp_horner x 1 (S (2 * N)) <= Rtrigo_def.exp (- x) <= exp_horner x 1 (2 * N).
Proof.
  intros Hx. rewrite <- !exp_seq_horner. now apply exp_neg_bounds.
Qed.

(** A logarithm is bounded by checking a product with a partial sum. *)
Lemma ln_lower (y l : R) (N : nat) :
  0 <= l <= 1 -> 0 < y ->
  1 <= exp_horner l 1 (S (2 * N)) * y -> l <= ln y.
Proof.
  intros Hl Hy Hs.
  destruct (exp_neg_horner_bounds l N Hl) as [Hlo _].
  assert (H1 : 1 <= Rtrigo_def.exp (- l) * y).
  { apply Rle_trans with (1 := Hs). apply Rmult_le_compat_r; lra. }
  rewrite <- (ln_exp l).
  destruct (Rle_lt_dec (Rtrigo_def.exp l) y) as [[Hlt | Heq] | Hlt].
  - left. apply ln_increasing; [ apply exp_pos | exact Hlt ].
  - right. now rewrite Heq.
  - exfalso. pose proof (exp_pos (- l)) as Hp.
    assert (H : Rtrigo_def.exp (- l) * y < Rtrigo_def.exp (- l) * Rtrigo_def.exp l)
      by (apply Rmult_lt_compat_l; lra).
    rewrite <- exp_plus, Rplus_opp_l, exp_0 in H. lra.
Qed.

Lemma ln_upper (y l : R) (N : nat) :
  0 <= l <= 1 -> 0 < y ->
  exp_horner l 1 (2 * N) * y <= 1 -> ln y <= l.
Proof.
  intros Hl Hy Hs.
  destruct (exp_neg_horner_bounds l N Hl) as [_ Hhi].
  assert (H1 : Rtrigo_def.exp (- l) * y <= 1).
  { apply Rle_trans with (2 := Hs). apply Rmult_le_compat_r; lra. }
  rewrite <- (ln_exp l).
  destruct (Rle_lt_dec y (Rtrigo_def.exp l)) as [[Hlt | Heq] | Hlt].
  - left. apply ln_increasing; assumption.
  - right. now rewrite Heq.
  - exfalso. pose proof (exp_pos (- l)) as Hp.
    assert (H : Rtrigo_def.exp (- l) * Rtrigo_def.exp l < Rtrigo_def.exp (- l) * y)
      by (apply Rmult_lt_compat_l; lra).
    rewrite <- exp_plus, Rplus_opp_l, exp_0 in H. lra.
Qed.

(** ** The reference colour of the doctests *)

Lemma ref_e_bounds : -23.9313452042 < rot_e ref_a ref_b < -23.9313452041.
Proof.
  unfold rot_e, ref_a, ref_b.
  pose proof cos_16_enclosure. pose proof sin_16_enclosure. split; lra.
Qed.

Lemma ref_f_bounds : 1.5867006879 < rot_f ref_a ref_b < 1.586700688.
Proof.
  unfold rot_f, ref_a, ref_b.
  pose proof cos_16_enclosure. pose proof sin_16_enclosure. split; lra.
Qed.

(** Interval steps: square root, quotient and product. *)
Lemma radius_enclosure (x y g_lo g_hi : R) :
  0 <= g_lo -> 0 <= g_hi ->
  g_lo * g_lo < x * x + y * y < g_hi * g_hi ->
  g_lo < radius x y < g_hi.
Proof.
  intros Hg0 Hg1 Hsq. unfold radius.
  rewrite <- (sqrt_square g_lo), <- (sqrt_square g_hi) by assumption.
  split; apply sqrt_lt_1_alt; nra.
Qed.

Lemma radius_bounds (x y x_lo x_hi y_lo y_hi g_lo g_hi : R) :
  x_lo < x < x_hi -> x_hi <= 0 -> y_lo < y < y_hi -> 0 <= y_lo ->
  0 <= g_lo -> 0 <= g_hi ->
  g_lo * g_lo <= x_hi * x_hi + y_lo * y_lo ->
  x_lo * x_lo + y_hi * y_hi <= g_hi * g_hi ->
  g_lo < radius x y < g_hi.
Proof.
  intros Hx Hx0 Hy Hy0 Hg0 Hg1 Hlo Hhi.
  apply radius_enclosure; [ assumption | assumption | nra ].
Qed.

Lemma ref_G_bounds :
  23.9838883909 < radius (rot_e ref_a ref_b) (rot_f ref_a ref_b) < 23.9838883911.
Proof.
  apply (radius_bounds _ _ _ _ _ _ _ _ ref_e_bounds ltac:(lra) ref_f_bounds); lra.
Qed.

Lemma ln_enclosure (y y_lo y_hi l_lo l_hi : R) (N : nat) :
  0 <= l_lo <= 1 -> 0 <= l_hi <= 1 -> 0 < y_lo -> y_lo <= y <= y_hi ->
  1 <= exp_horner l_lo 1 (S (2 * N)) * y_lo ->
  exp_horner l_hi 1 (2 * N) * y_hi <= 1 ->
  l_lo <= ln y <= l_hi.
Proof.
  intros Hl0 Hl1 Hy0 Hy Hlo Hhi. split.
  - apply Rle_trans with (ln y_lo); [ now apply (ln_lower _ _ N) | ].
    destruct (proj1 Hy) as [Hlt | ->]; [ left; apply ln_increasing; lra | lra ].
  - apply Rle_trans with (ln y_hi); [ | apply (ln_upper _ _ N); [ assumption | lra | assumption ] ].
    destruct (proj2 Hy) as [Hlt | ->]; [ left; apply ln_increasing; lra | lra ].
Qed.

Lemma ref_ln_chroma :
  0.73201926447 <=
  ln (1 + 0.045 * radius (rot_e ref_a ref_b) (rot_f ref_a ref_b)) <= 0.7320192645.
Proof.
  pose proof ref_G_bounds as HG.
  apply (ln_enclosure _ (1 + 0.045 * 23.9838883909) (1 + 0.045 * 23.9838883911) _ _ 7);
    try lra.
  - cbn [exp_horner Nat.mul Nat.add]. lra.
  - cbn [exp_horner Nat.mul Nat.add]. lra.
Qed.

Lemma ref_ln_lightness :
  0.470111710766 <= ln (1 + 0.0158 * ref_L) <= 0.470111710769.
Proof.
  unfold ref_L.
  apply (ln_enclosure _ (1 + 0.0158 * 37.98562910) (1 + 0.0158 * 37.98562910) _ _ 7);
    try lra.
  - cbn [exp_horner Nat.mul Nat.add]. lra.
  - cbn [exp_horner Nat.mul Nat.add]. lra.
Qed.

Lemma quotient_bounds (x g x_lo x_hi g_lo g_hi t_lo t_hi : R) :
  x_lo < x < x_hi -> 0 < g_lo -> g_lo < g < g_hi ->
  t_lo * g_lo <= x_lo -> t_lo * g_hi <= x_lo ->
  x_hi <= t_hi * g_lo -> x_hi <= t_hi * g_hi ->
  t_lo < x / g < t_hi.
Proof.
  intros Hx Hg0 Hg H1 H2 H3 H4.
  assert (Hg' : 0 < g) by lra.
  assert (Hlo : t_lo * g <= x_lo).
  { destruct (Rle_lt_dec 0 t_lo); nra. }
  assert (Hhi : x_hi <= t_hi * g).
  { destruct (Rle_lt_dec 0 t_hi); nra. }
  split.
  - apply (Rmult_lt_reg_r g); [ exact Hg' | ].
    unfold Rdiv. rewrite Rmult_assoc, Rinv_l by lra. lra.
  - apply (Rmult_lt_reg_r g); [ exact Hg' | ].
    unfold Rdiv. rewrite Rmult_assoc, Rinv_l by lra. lra.
Qed.

Lemma product_bounds (c t c_lo c_hi t_lo t_hi p_lo p_hi : R) :
  0 < c_lo -> c_lo <= c <= c_hi -> t_lo < t < t_hi ->
  p_lo <= c_lo * t_lo -> p_lo <= c_hi * t_lo ->
  c_lo * t_hi <= p_hi -> c_hi * t_hi <= p_hi ->
  p_lo < c * t < p_hi.
Proof.
  intros Hc0 Hc Ht H1 H2 H3 H4.
  assert (Hlo : p_lo <= c * t_lo).
  { destruct (Rle_lt_dec 0 t_lo); nra. }
  assert (Hhi : c * t_hi <= p_hi).
  { destruct (Rle_lt_dec 0 t_hi); nra. }
  split; nra.
Qed.

Lemma ref_C_99_bounds :
  16.267094766 <=
  ln (1 + 0.045 * radius (rot_e ref_a ref_b) (rot_f ref_a ref_b)) / (0.045 * 1 * 1)
  <= 16.2670947667.
Proof.
  pose proof ref_ln_chroma as [Hlo Hhi].
  replace (0.045 * 1 * 1) with 0.045 by ring.
  split.
  - apply (Rmult_le_reg_r 0.045); [ lra | ].
    unfold Rdiv. rewrite Rmult_assoc, Rinv_l by lra. lra.
  - apply (Rmult_le_reg_r 0.045); [ lra | ].
    unfold Rdiv. rewrite Rmult_assoc, Rinv_l by lra. lra.
Qed.

Lemma ref_cos_hue :
  -0.997809229854 <
  Rtrigo_def.cos (atan2 (rot_f ref_a ref_b) (rot_e ref_a ref_b)) < -0.997809229839.
Proof.
  pose proof ref_e_bounds as He.
  rewrite cos_atan2 by lra.
  eapply quotient_bounds; [ exact He | | exact ref_G_bounds | .. ]; lra.
Qed.

Lemma ref_sin_hue :
  0.066156940943 <
  Rtrigo_def.sin (atan2 (rot_f ref_a ref_b) (rot_e ref_a ref_b)) < 0.06615694095.
Proof.
  pose proof ref_e_bounds as He.
  rewrite sin_atan2 by lra.
  eapply quotient_bounds; [ exact ref_f_bounds | | exact ref_G_bounds | .. ]; lra.
Qed.

Lemma within_fin (tol v r : R) : r - tol < v < r + tol -> within tol (Fin v) r.
Proof. intros Hv. cbn. apply Rabs_def1; lra. Qed.

Lemma reference_forward :
  let Lab := triple 37.98562910 (-23.62907688) (-4.41746615) in
  let Lab_99 := Lab_to_DIN99 Lab (Fin 1) (Fin 1) in
  within 0.0000001 (chan_L Lab_99) 49.60101649 /\
  within 0.0000001 (chan_a Lab_99) (-16.23145729) /\
  within 0.0000001 (chan_b Lab_99) 1.07618123 /\
  DIN99_to_Lab Lab_99 (Fin 1) (Fin 1) = Lab.
Proof.
  intros Lab Lab_99.
  assert (Hout : Lab_99 = Lab_to_DIN99 (triple ref_L ref_a ref_b) (Fin 1) (Fin 1))
    by reflexivity.
  split; [ | split; [ | split ] ].
  - rewrite Hout, Lab_to_DIN99_chan_L. unfold triple, chan_L. cbn [fst snd].
    pose proof ref_ln_lightness as Hln.
    rewrite Lab_to_DIN99_L_99_fin by (unfold ref_L; lra).
    apply within_fin. lra.
  - rewrite Hout, Lab_to_DIN99_fin by lra. unfold chan_a. cbn [fst snd].
    apply within_fin.
    eapply product_bounds; [ | exact ref_C_99_bounds | exact ref_cos_hue | .. ]; lra.
  - rewrite Hout, Lab_to_DIN99_fin by lra. unfold chan_b. cbn [fst snd].
    apply within_fin.
    eapply product_bounds; [ | exact ref_C_99_bounds | exact ref_sin_hue | .. ]; lra.
  - unfold Lab_99, Lab. apply roundtrip_k_E_1; lra.
Qed.

Lemma exp_enclosure (u u_lo u_hi E_lo E_hi : R) (N : nat) :
  0 <= u_lo <= 1 -> 0 <= u_hi <= 1 -> u_lo <= u <= u_hi ->
  0 < E_lo -> 0 < E_hi ->
  exp_horner u_lo 1 (2 * N) * E_lo <= 1 ->
  1 <= exp_horner u_hi 1 (S (2 * N)) * E_hi ->
  E_lo <= Rtrigo_def.exp u <= E_hi.
Proof.
  intros Hlo Hhi Hu HE_lo HE_hi Hs_lo Hs_hi.
  destruct (exp_neg_horner_bounds u_lo N Hlo) as [_ Hup].
  destruct (exp_neg_horner_bounds u_hi N Hhi) as [Hdn _].
  pose proof (exp_pos (- u_lo)) as Hp_lo. pose proof (exp_pos (- u_hi)) as Hp_hi.
  assert (Hinv : forall v, Rtrigo_def.exp (- v) * Rtrigo_def.exp v = 1).
  { intros v. now rewrite <- exp_plus, Rplus_opp_l, exp_0. }
  assert (Hmono : forall v w, v <= w -> Rtrigo_def.exp v <= Rtrigo_def.exp w).
  { intros v w [Hlt | ->]; [ left; now apply exp_increasing | lra ]. }
  split.
  - apply Rle_trans with (Rtrigo_def.exp u_lo); [ | apply Hmono; lra ].
    apply (Rmult_le_reg_l (Rtrigo_def.exp (- u_lo))); [ exact Hp_lo | ].
    rewrite Hinv. apply Rle_trans with (2 := Hs_lo).
    apply Rmult_le_compat_r; lra.
  - apply Rle_trans with (Rtrigo_def.exp u_hi); [ apply Hmono; lra | ].
    apply (Rmult_le_reg_l (Rtrigo_def.exp (- u_hi))); [ exact Hp_hi | ].
    rewrite Hinv. apply Rle_trans with (1 := Hs_hi).
    apply Rmult_le_compat_r; lra.
Qed.

Lemma ref_inv_C_99 : 16.26709475588 < radius ref_a_99 ref_b_99 < 16.26709475589.
Proof.
  unfold ref_a_99, ref_b_99.
  apply radius_enclosure; lra.
Qed.

Lemma ref_inv_cos_hue :
  -0.997809229835 < Rtrigo_def.cos (atan2 ref_b_99 ref_a_99) < -0.997809229832.
Proof.
  rewrite cos_atan2 by (unfold ref_a_99; lra).
  eapply (quotient_bounds _ _ (-16.231457290000001) (-16.231457289999999));
    [ unfold ref_a_99; lra | | exact ref_inv_C_99 | .. ]; lra.
Qed.

Lemma ref_inv_sin_hue :
  0.066156941121 < Rtrigo_def.sin (atan2 ref_b_99 ref_a_99) < 0.066156941124.
Proof.
  rewrite sin_atan2 by (unfold ref_a_99; lra).
  eapply (quotient_bounds _ _ 1.076181229999999 1.076181230000001);
    [ unfold ref_b_99; lra | | exact ref_inv_C_99 | .. ]; lra.
Qed.

Lemma ref_inv_G :
  23.9838883686 <=
  (Rtrigo_def.exp (0.045 * radius ref_a_99 ref_b_99 * 1 * 1) - 1) / 0.045
  <= 23.9838883698.
Proof.
  pose proof ref_inv_C_99 as HC.
  assert (HE : 2.07927497659 <=
               Rtrigo_def.exp (0.045 * radius ref_a_99 ref_b_99 * 1 * 1) <= 2.07927497664).
  { apply (exp_enclosure _ (0.045 * 16.26709475588) (0.045 * 16.26709475589) _ _ 7);
      try lra.
    - cbn [exp_horner Nat.mul Nat.add]. lra.
    - cbn [exp_horner Nat.mul Nat.add]. lra. }
  split.
  - apply (Rmult_le_reg_r 0.045); [ lra | ].
    unfold Rdiv. rewrite Rmult_assoc, Rinv_l by lra. lra.
  - apply (Rmult_le_reg_r 0.045); [ lra | ].
    unfold Rdiv. rewrite Rmult_assoc, Rinv_l by lra. lra.
Qed.

Lemma ref_inv_L :
  37.985629096 <= (Rtrigo_def.exp (ref_L_99 * 1 / 105.509) - 1) / 0.0158 <= 37.9856291.
Proof.
  assert (Hu : 0.4701117107545 <= ref_L_99 * 1 / 105.509 <= 0.4701117107546).
  { unfold ref_L_99. split.
    - apply (Rmult_le_reg_r 105.509); [ lra | ].
      unfold Rdiv. rewrite Rmult_assoc, Rinv_l by lra. lra.
    - apply (Rmult_le_reg_r 105.509); [ lra | ].
      unfold Rdiv. rewrite Rmult_assoc, Rinv_l by lra. lra. }
  assert (HE : 1.60017293973 <= Rtrigo_def.exp (ref_L_99 * 1 / 105.509) <= 1.60017293978).
  { apply (exp_enclosure _ 0.4701117107545 0.4701117107546 _ _ 7); try lra.
    - cbn [exp_horner Nat.mul Nat.add]. lra.
    - cbn [exp_horner Nat.mul Nat.add]. lra. }
  split.
  - apply (Rmult_le_reg_r 0.0158); [ lra | ].
    unfold Rdiv. rewrite Rmult_assoc, Rinv_l by lra. lra.
  - apply (Rmult_le_reg_r 0.0158); [ lra | ].
    unfold Rdiv. rewrite Rmult_assoc, Rinv_l by lra. lra.
Qed.

Lemma ref_inv_e :
  -23.93134518273 <
  (Rtrigo_def.exp (0.045 * radius ref_a_99 ref_b_99 * 1 * 1) - 1) / 0.045 *
  Rtrigo_def.cos (atan2 ref_b_99 ref_a_99) < -23.93134518143.
Proof.
  eapply product_bounds; [ | exact ref_inv_G | exact ref_inv_cos_hue | .. ]; lra.
Qed.

Lemma ref_inv_f :
  1.58670069064 <
  (Rtrigo_def.exp (0.045 * radius ref_a_99 ref_b_99 * 1 * 1) - 1) / 0.045 *
  Rtrigo_def.sin (atan2 ref_b_99 ref_a_99) < 1.58670069082.
Proof.
  eapply product_bounds; [ | exact ref_inv_G | exact ref_inv_sin_hue | .. ]; lra.
Qed.

(** Undoing the rotation on enclosures of [e] and [f]. *)
Lemma unrotate_bounds (e f e_lo e_hi f_lo f_hi : R) :
  e_lo < e < e_hi -> e_hi <= 0 -> f_lo < f < f_hi -> 0 <= f_lo ->
  e_lo * 0.9612616959386 - f_hi / 0.7 * 0.2756373558175 <
    e * cos_16 - f / 0.7 * sin_16 <
    e_hi * 0.9612616959380 - f_lo / 0.7 * 0.2756373558165 /\
  e_lo * 0.2756373558175 + f_lo / 0.7 * 0.9612616959380 <
    e * sin_16 + f / 0.7 * cos_16 <
    e_hi * 0.2756373558165 + f_hi / 0.7 * 0.9612616959386.
Proof.
  intros He He0 Hf Hf0.
  pose proof cos_16_enclosure as Hc. pose proof sin_16_enclosure as Hs.
  assert (Hf7 : f_lo / 0.7 < f / 0.7 < f_hi / 0.7) by lra.
  assert (Hf70 : 0 <= f_lo / 0.7) by lra.
  set (g := f / 0.7) in *. set (g_lo := f_lo / 0.7) in *. set (g_hi := f_hi / 0.7) in *.
  assert (H1 : e_lo * 0.9612616959386 < e * cos_16 < e_hi * 0.9612616959380) by nra.
  assert (H2 : g_lo * 0.2756373558165 < g * sin_16 < g_hi * 0.2756373558175) by nra.
  assert (H3 : e_lo * 0.2756373558175 < e * sin_16 < e_hi * 0.2756373558165) by nra.
  assert (H4 : g_lo * 0.9612616959380 < g * cos_16 < g_hi * 0.9612616959386) by nra.
  split; lra.
Qed.

(** The second doctest: the inverse at the reference DIN99 triple. *)
Lemma reference_inverse :
  let Lab := DIN99_to_Lab (triple 49.60101649 (-16.23145729) 1.07618123) (Fin 1) (Fin 1) in
  within 0.000001 (chan_L Lab) 37.98562910 /\
  within 0.000001 (chan_a Lab) (-23.62907688) /\
  within 0.000001 (chan_b Lab) (-4.41746615).
Proof.
  intros Lab.
  assert (HLab : Lab = DIN99_to_Lab (Fin ref_L_99, Fin ref_a_99, Fin ref_b_99) (Fin 1) (Fin 1))
    by reflexivity.
  rewrite HLab, DIN99_to_Lab_fin, DIN99_to_Lab_L_fin. cbv zeta.
  unfold chan_L, chan_a, chan_b. cbn [fst snd].
  pose proof ref_inv_L as HL.
  destruct (unrotate_bounds _ _ _ _ _ _ ref_inv_e ltac:(lra) ref_inv_f ltac:(lra))
    as [Ha Hb].
  repeat split; apply within_fin; lra.
Qed.

(** C6: with the default factors [Lab_to_DIN99] maps
    (37.98562910, -23.62907688, -4.41746615) to within 1e-7 of
    (49.60101649, -16.23145729, 1.07618123); [DIN99_to_Lab] maps its output
    back to the Lab triple, and maps the rounded DIN99 triple to within 1e-6
    of it. *)
Theorem reference_colour :
  let Lab := triple 37.98562910 (-23.62907688) (-4.41746615) in
  let Lab_99 := Lab_to_DIN99 Lab (Fin 1) (Fin 1) in
  let Lab' := DIN99_to_Lab (triple 49.60101649 (-16.23145729) 1.07618123) (Fin 1) (Fin 1) in
  (within 0.0000001 (chan_L Lab_99) 49.60101649 /\
   within 0.0000001 (chan_a Lab_99) (-16.23145729) /\
   within 0.0000001 (chan_b Lab_99) 1.07618123) /\
  DIN99_to_Lab Lab_99 (Fin 1) (Fin 1) = Lab /\
  (within 0.000001 (chan_L Lab') 37.98562910 /\
   within 0.000001 (chan_a Lab') (-23.62907688) /\
   within 0.000001 (chan_b Lab') (-4.41746615)).
Proof.
  intros Lab Lab_99 Lab'.
  destruct reference_forward as (HL & Ha & Hb & Hinv).
  pose proof reference_inverse as Hrev.
  split; [ repeat split; assumption | ]. split; [ exact Hinv | exact Hrev ].
Qed.

(** ** Composition in both orders, for all factors *)

Lemma rotate_unrotate_e (e f : R) :
  rot_e (e * cos_16 - f / 0.7 * sin_16) (e * sin_16 + f / 0.7 * cos_16) = e.
Proof.
  unfold rot_e. pose proof cos_sin_16 as H.
  transitivity (e * (cos_16 * cos_16 + sin_16 * sin_16)); [ ring | rewrite H; ring ].
Qed.

Lemma rotate_unrotate_f (e f : R) :
  rot_f (e * cos_16 - f / 0.7 * sin_16) (e * sin_16 + f / 0.7 * cos_16) = f.
Proof.
  unfold rot_f. pose proof cos_sin_16 as H.
  transitivity (f * (cos_16 * cos_16 + sin_16 * sin_16)); [ field; lra | rewrite H; ring ].
Qed.

Lemma expand_nonneg (c k : R) :
  0 <= c -> 0 < k -> 0 <= (Rtrigo_def.exp (0.045 * c * k) - 1) / 0.045.
Proof.
  intros Hc Hk.
  assert (Hx : 0 <= 0.045 * c * k) by (apply Rmult_le_pos; nra).
  pose proof (exp_ineq1_le (0.045 * c * k)) as He.
  apply Rmult_le_pos; [ lra | ]. left. apply Rinv_0_lt_compat. lra.
Qed.

Lemma compress_expand (c k : R) :
  k <> 0 ->
  ln (1 + 0.045 * ((Rtrigo_def.exp (0.045 * c * k) - 1) / 0.045)) / (0.045 * k) = c.
Proof.
  intros Hk.
  replace (1 + 0.045 * ((Rtrigo_def.exp (0.045 * c * k) - 1) / 0.045))
    with (Rtrigo_def.exp (0.045 * c * k)) by (field; lra).
  rewrite ln_exp. field. lra.
Qed.

Lemma expand_zero (c k : R) :
  0 < k -> (Rtrigo_def.exp (0.045 * c * k) - 1) / 0.045 = 0 -> c = 0.
Proof.
  intros Hk H0.
  assert (He : Rtrigo_def.exp (0.045 * c * k) = Rtrigo_def.exp 0).
  { rewrite exp_0. apply (Rmult_eq_compat_r 0.045) in H0.
    unfold Rdiv in H0. rewrite Rmult_assoc, Rinv_l, Rmult_0_l in H0 by lra. lra. }
  apply exp_inv in He. nra.
Qed.

(** Polar form, expanded and compressed again. *)
Lemma chroma_reverse_roundtrip (a_99 b_99 kE kCH : R) :
  0 < kCH * kE ->
  let G := (Rtrigo_def.exp (0.045 * radius a_99 b_99 * kCH * kE) - 1) / 0.045 in
  let e := G * Rtrigo_def.cos (atan2 b_99 a_99) in
  let f := G * Rtrigo_def.sin (atan2 b_99 a_99) in
  let C_99 := ln (1 + 0.045 * radius e f) / (0.045 * kCH * kE) in
  C_99 * Rtrigo_def.cos (atan2 f e) = a_99 /\
  C_99 * Rtrigo_def.sin (atan2 f e) = b_99.
Proof.
  intros Hk G e f C_99.
  pose proof (radius_nonneg a_99 b_99) as Hr.
  assert (HG0 : 0 <= G).
  { unfold G. rewrite (Rmult_assoc _ kCH kE). now apply expand_nonneg. }
  assert (Hrad : radius e f = G) by (unfold e, f; now apply radius_scaled).
  assert (HC : C_99 = radius a_99 b_99).
  { unfold C_99. rewrite Hrad. unfold G.
    rewrite (Rmult_assoc _ kCH kE), (Rmult_assoc 0.045 kCH kE).
    apply compress_expand. lra. }
  rewrite HC. destruct HG0 as [HG0 | HG0].
  - unfold e, f. rewrite cos_atan2_scaled, sin_atan2_scaled by exact HG0.
    split; [ apply polar_cos | apply polar_sin ].
  - assert (H0 : radius a_99 b_99 = 0).
    { apply (expand_zero _ (kCH * kE) Hk). rewrite <- Rmult_assoc. now symmetry. }
    rewrite H0. apply radius_zero in H0. destruct H0 as [-> ->]. lra.
Qed.

Lemma lightness_reverse_roundtrip (L_99 kE : R) :
  Lab_to_DIN99_L_99 (DIN99_to_Lab_L (Fin L_99) (Fin kE)) (Fin kE) =
  Fin (L_99 * kE * kE).
Proof.
  rewrite DIN99_to_Lab_L_fin.
  pose proof (exp_pos (L_99 * kE / 105.509)) as He.
  assert (Harg : 1 + 0.0158 * ((Rtrigo_def.exp (L_99 * kE / 105.509) - 1) / 0.0158) =
                 Rtrigo_def.exp (L_99 * kE / 105.509)) by (field; lra).
  rewrite Lab_to_DIN99_L_99_fin by (rewrite Harg; exact He).
  rewrite Harg, ln_exp. f_equal. field; lra.
Qed.

(** X1: for [k_CH * k_E > 0], [Lab_to_DIN99] after [DIN99_to_Lab] with the
    same factors gives back the chroma channels and multiplies the lightness
    by [k_E * k_E]. *)
Theorem forward_after_inverse (L_99 a_99 b_99 kE kCH : R) :
  0 < kCH * kE ->
  Lab_to_DIN99 (DIN99_to_Lab (triple L_99 a_99 b_99) (Fin kE) (Fin kCH))
    (Fin kE) (Fin kCH) =
  triple (L_99 * kE * kE) a_99 b_99.
Proof.
  intros Hk. unfold triple at 1.
  rewrite DIN99_to_Lab_fin, DIN99_to_Lab_L_fin. cbv zeta.
  fold (triple ((Rtrigo_def.exp (L_99 * kE / 105.509) - 1) / 0.0158)
         ((Rtrigo_def.exp (0.045 * radius a_99 b_99 * kCH * kE) - 1) / 0.045 *
            Rtrigo_def.cos (atan2 b_99 a_99) * cos_16 -
          (Rtrigo_def.exp (0.045 * radius a_99 b_99 * kCH * kE) - 1) / 0.045 *
            Rtrigo_def.sin (atan2 b_99 a_99) / 0.7 * sin_16)
         ((Rtrigo_def.exp (0.045 * radius a_99 b_99 * kCH * kE) - 1) / 0.045 *
            Rtrigo_def.cos (atan2 b_99 a_99) * sin_16 +
          (Rtrigo_def.exp (0.045 * radius a_99 b_99 * kCH * kE) - 1) / 0.045 *
            Rtrigo_def.sin (atan2 b_99 a_99) / 0.7 * cos_16)).
  rewrite Lab_to_DIN99_fin by lra. cbv zeta.
  rewrite rotate_unrotate_e, rotate_unrotate_f.
  destruct (chroma_reverse_roundtrip a_99 b_99 kE kCH Hk) as [Ha Hb].
  cbv zeta in Ha, Hb. rewrite Ha, Hb.
  rewrite <- DIN99_to_Lab_L_fin, lightness_reverse_roundtrip. reflexivity.
Qed.

Lemma forward_after_inverse_witness :
  Lab_to_DIN99 (DIN99_to_Lab (triple 50 (-16) 1) (Fin 2) (Fin 3)) (Fin 2) (Fin 3) =
  triple (50 * 2 * 2) (-16) 1.
Proof. apply (forward_after_inverse 50 (-16) 1 2 3). lra. Defined.

(** X2: for [1 + 0.0158 * L > 0] and [k_CH * k_E > 0], [DIN99_to_Lab]
    after [Lab_to_DIN99] with the same factors gives back [a] and [b] and
    the lightness [((1 + 0.0158 * L) ^ (k_E * k_E) - 1) / 0.0158]. *)
Theorem inverse_after_forward (L a b kE kCH : R) :
  0 < 1 + 0.0158 * L -> 0 < kCH * kE ->
  DIN99_to_Lab (Lab_to_DIN99 (triple L a b) (Fin kE) (Fin kCH)) (Fin kE) (Fin kCH) =
  triple ((Rpower (1 + 0.0158 * L) (kE * kE) - 1) / 0.0158) a b.
Proof.
  intros HL Hk.
  destruct (chroma_channels_roundtrip_fin L a b kE kCH Hk) as [Ha Hb].
  pose proof (DIN99_to_Lab_chan_L
                (Lab_to_DIN99 (triple L a b) (Fin kE) (Fin kCH)) (Fin kE) (Fin kCH)) as Hl.
  rewrite Lab_to_DIN99_chan_L in Hl. unfold triple at 2 in Hl. unfold chan_L at 2 in Hl.
  cbn [fst snd] in Hl. rewrite lightness_roundtrip_fin in Hl by exact HL.
  destruct (DIN99_to_Lab _ _ _) as [[L' a'] b'].
  unfold chan_L, chan_a, chan_b, triple in *. cbn [fst snd] in *. now subst.
Qed.

Lemma inverse_after_forward_witness :
  DIN99_to_Lab (Lab_to_DIN99 (triple 50 (-20) 7) (Fin 2) (Fin 3)) (Fin 2) (Fin 3) =
  triple ((Rpower (1 + 0.0158 * 50) (2 * 2) - 1) / 0.0158) (-20) 7.
Proof. apply (inverse_after_forward 50 (-20) 7 2 3); lra. Defined.

Lemma Rpower_fixed (y p : R) : 0 < y -> (Rpower y p = y <-> p = 1 \/ y = 1).
Proof.
  intros Hy. unfold Rpower. split.
  - intros H. rewrite <- (exp_ln y Hy) in H at 2. apply exp_inv in H.
    assert (Hz : (p - 1) * ln y = 0) by lra.
    apply Rmult_integral in Hz. destruct Hz as [Hp | Hl]; [ left; lra | right ].
    rewrite <- ln_1 in Hl. apply ln_inv in Hl; lra.
  - intros [-> | ->].
    + rewrite Rmult_1_l. now apply exp_ln.
    + rewrite ln_1, Rmult_0_r. apply exp_0.
Qed.

(** X3: for [1 + 0.0158 * L > 0] the lightness survives the round trip
    exactly when [k_E * k_E = 1] or [L = 0]. *)
Theorem lightness_roundtrip_iff (L a b kE : R) (k_CH : float) :
  0 < 1 + 0.0158 * L ->
  (chan_L (DIN99_to_Lab (Lab_to_DIN99 (triple L a b) (Fin kE) k_CH) (Fin kE) k_CH) =
   Fin L <-> kE * kE = 1 \/ L = 0).
Proof.
  intros HL. rewrite DIN99_to_Lab_chan_L, Lab_to_DIN99_chan_L.
  unfold triple, chan_L. cbn [fst snd].
  rewrite lightness_roundtrip_fin by exact HL.
  pose proof (Rpower_fixed (1 + 0.0158 * L) (kE * kE) HL) as Hfix.
  split.
  - intros Heq. injection Heq as Heq.
    assert (Hp : Rpower (1 + 0.0158 * L) (kE * kE) = 1 + 0.0158 * L).
    { apply (Rmult_eq_compat_r 0.0158) in Heq.
      unfold Rdiv in Heq. rewrite Rmult_assoc, Rinv_l, Rmult_1_r in Heq by lra. lra. }
    apply Hfix in Hp. destruct Hp; [ now left | right; lra ].
  - intros Hk. f_equal.
    assert (Hp : Rpower (1 + 0.0158 * L) (kE * kE) = 1 + 0.0158 * L).
    { apply Hfix. destruct Hk; [ now left | right; lra ]. }
    rewrite Hp. field; lra.
Qed.

Lemma lightness_roundtrip_iff_witness :
  chan_L (DIN99_to_Lab (Lab_to_DIN99 (triple 50 1 2) (Fin (-1)) (Fin 3)) (Fin (-1)) (Fin 3)) =
  Fin 50 <-> -1 * -1 = 1 \/ 50 = 0.
Proof. apply (lightness_roundtrip_iff 50 1 2 (-1) (Fin 3)). lra. Defined.

(** X4: for [k_CH * k_E <> 0] the chroma channels of [Lab_to_DIN99] are
    those for the factors 1 and 1, divided by [k_CH * k_E]. *)
Theorem chroma_scales_inversely (L a b kE kCH : R) :
  kCH * kE <> 0 ->
  chan_a (Lab_to_DIN99 (triple L a b) (Fin kE) (Fin kCH)) =
    div (chan_a (Lab_to_DIN99 (triple L a b) (Fin 1) (Fin 1))) (Fin (kCH * kE)) /\
  chan_b (Lab_to_DIN99 (triple L a b) (Fin kE) (Fin kCH)) =
    div (chan_b (Lab_to_DIN99 (triple L a b) (Fin 1) (Fin 1))) (Fin (kCH * kE)).
Proof.
  intros Hk. rewrite !Lab_to_DIN99_fin by lra. cbv zeta.
  unfold chan_a, chan_b. cbn [fst snd].
  rewrite !div_fin by exact Hk.
  assert (HkE : kE <> 0) by (intros ->; apply Hk; ring).
  assert (HkCH : kCH <> 0) by (intros ->; apply Hk; ring).
  split; f_equal; field; repeat split; assumption || lra.
Qed.

Lemma chroma_scales_inversely_witness :
  chan_a (Lab_to_DIN99 (triple 50 3 4) (Fin 2) (Fin (-3))) =
    div (chan_a (Lab_to_DIN99 (triple 50 3 4) (Fin 1) (Fin 1))) (Fin (-3 * 2)) /\
  chan_b (Lab_to_DIN99 (triple 50 3 4) (Fin 2) (Fin (-3))) =
    div (chan_b (Lab_to_DIN99 (triple 50 3 4) (Fin 1) (Fin 1))) (Fin (-3 * 2)).
Proof. apply (chroma_scales_inversely 50 3 4 2 (-3)). lra. Defined.

(** ** Size of the output *)







(** X7: for [k_E > 0], a Lab lightness in [[0, 100]] gives a DIN99
    lightness in [[0, 100.0004 * k_E]]. *)
Theorem lightness_range (L a b kE : R) (k_CH : float) :
  0 <= L <= 100 -> 0 < kE ->
  exists L_99 : R,
    chan_L (Lab_to_DIN99 (triple L a b) (Fin kE) k_CH) = Fin L_99 /\
    0 <= L_99 <= 100.0004 * kE.
Proof.
  intros HL Hk. rewrite Lab_to_DIN99_chan_L.
  unfold triple, chan_L. cbn [fst snd].
  rewrite Lab_to_DIN99_L_99_fin by lra.
  eexists. split; [ reflexivity | ].
  assert (Hlo : 0 <= ln (1 + 0.0158 * L)).
  { rewrite <- ln_1. destruct (proj1 HL) as [H0 | <-].
    - left. apply ln_increasing; lra.
    - right. f_equal. ring. }
  assert (Hhi : ln (1 + 0.0158 * L) <= 0.94779).
  { apply Rle_trans with (ln 2.58).
    - destruct (proj2 HL) as [H100 | ->].
      + left. apply ln_increasing; lra.
      + right. f_equal. lra.
    - apply (ln_upper _ _ 7); [ lra | lra | ].
      cbn [exp_horner Nat.mul Nat.add]. lra. }
  split; nra.
Qed.

Lemma lightness_range_witness :
  exists L_99 : R,
    chan_L (Lab_to_DIN99 (triple 100 0 0) (Fin 1) (Fin 1)) = Fin L_99 /\
    0 <= L_99 <= 100.0004 * 1.
Proof. apply (lightness_range 100 0 0 1 (Fin 1)); lra. Defined.

(** X8: [DIN99_to_Lab] maps [a_99 = b_99 = 0] to [a = b = 0], for all
    finite factors, zero included. *)
Theorem inverse_achromatic (L_99 kE kCH : R) :
  chan_a (DIN99_to_Lab (triple L_99 0 0) (Fin kE) (Fin kCH)) = Fin 0 /\
  chan_b (DIN99_to_Lab (triple L_99 0 0) (Fin kE) (Fin kCH)) = Fin 0.
Proof.
  unfold triple. rewrite DIN99_to_Lab_fin. cbv zeta.
  unfold chan_a, chan_b. cbn [fst snd].
  rewrite radius_0.
  replace (0.045 * 0 * kCH * kE) with 0 by ring.
  rewrite exp_0_minus_1 by lra.
  split; f_equal; unfold Rdiv; ring.
Qed.

(** ** When the forward transformation is finite *)






(** ** Round trip of a batch *)

(** X10: with [k_E = 1] and [k_CH > 0], [DIN99_to_Lab] after
    [Lab_to_DIN99] on a batch of finite triples with [1 + 0.0158 * L > 0]
    gives the batch back. *)
Theorem batch_roundtrip (Labs : list (R * R * R)) (kCH : R) :
  0 < kCH -> Forall in_domain Labs ->
  DIN99_to_Lab (Lab_to_DIN99 (map finite_triple Labs) (Fin 1) (Fin kCH))
    (Fin 1) (Fin kCH) = map finite_triple Labs.
Proof.
  intros Hk Hdom. rewrite Lab_to_DIN99_batch, DIN99_to_Lab_batch, !map_map.
  induction Hdom as [ | [[L a] b] Labs HL _ IH ]; [ reflexivity | ].
  cbn [map]. rewrite IH. f_equal.
  unfold finite_triple. cbn [fst snd]. now apply roundtrip_k_E_1.
Qed.

Lemma batch_roundtrip_witness :
  DIN99_to_Lab
    (Lab_to_DIN99 (map finite_triple [(50, 1, 2); (0, 0, 0)]) (Fin 1) (Fin 2))
    (Fin 1) (Fin 2) = map finite_triple [(50, 1, 2); (0, 0, 0)].
Proof.
  apply (batch_roundtrip [(50, 1, 2); (0, 0, 0)] 2); [ lra | ].
  repeat constructor; unfold in_domain; cbn [fst]; lra.
Defined.

(** * Properties of the plotting helpers *)

Module PlottingFacts.

Import Stdlib.Strings.String Plotting.

Lemma equal_axes3d_eq (axes : Axes3D) :
  let d := largest_span axes in
  fst (equal_axes3d axes) =
  {| axes_aspect := "equal";
     xlim := (mean_row (xlim axes) - d / 2, mean_row (xlim axes) + d / 2);
     ylim := (mean_row (ylim axes) - d / 2, mean_row (ylim axes) + d / 2);
     zlim := (mean_row (zlim axes) - d / 2, mean_row (zlim axes) + d / 2);
     elev := elev axes; azim := azim axes |}.
Proof. reflexivity. Qed.

Lemma largest_span_bounds (axes : Axes3D) (axis : Axis) :
  Rabs (span (get_lim axis axes)) <= largest_span axes.
Proof.
  unfold largest_span.
  pose proof (Rmax_l (Rabs (span (xlim axes))) (Rabs (span (ylim axes)))).
  pose proof (Rmax_r (Rabs (span (xlim axes))) (Rabs (span (ylim axes)))).
  pose proof (Rmax_l (Rmax (Rabs (span (xlim axes))) (Rabs (span (ylim axes))))
                (Rabs (span (zlim axes)))).
  pose proof (Rmax_r (Rmax (Rabs (span (xlim axes))) (Rabs (span (ylim axes))))
                (Rabs (span (zlim axes)))).
  destruct axis; cbn [get_lim]; lra.
Qed.

Lemma largest_span_nonneg (axes : Axes3D) : 0 <= largest_span axes.
Proof.
  pose proof (largest_span_bounds axes axis_x) as Hx.
  pose proof (Rabs_pos (span (get_lim axis_x axes))). lra.
Qed.

(** The new limits of one axis. *)
Lemma equalised_axis (axes : Axes3D) (axis : Axis) :
  get_lim axis (fst (equal_axes3d axes)) =
  (mean_row (get_lim axis axes) - largest_span axes / 2,
   mean_row (get_lim axis axes) + largest_span axes / 2).
Proof. rewrite equal_axes3d_eq. now destruct axis. Qed.

Lemma equalised_span (axes : Axes3D) (axis : Axis) :
  span (get_lim axis (fst (equal_axes3d axes))) = largest_span axes.
Proof. rewrite equalised_axis. unfold span. cbn [fst snd]. lra. Qed.

Lemma equalised_centre (axes : Axes3D) (axis : Axis) :
  mean_row (get_lim axis (fst (equal_axes3d axes))) =
  mean_row (get_lim axis axes).
Proof. rewrite equalised_axis. unfold mean_row at 1. cbn [fst snd]. lra. Qed.

Lemma interval_kept (p : R * R) (d : R) :
  Rabs (span p) <= d ->
  mean_row p - d / 2 <= Rmin (fst p) (snd p) /\
  Rmax (fst p) (snd p) <= mean_row p + d / 2.
Proof.
  unfold span, mean_row. destruct p as [lo hi]. cbn [fst snd]. intros Hd.
  unfold Rmin, Rmax. destruct (Rle_dec lo hi).
  - rewrite Rabs_pos_eq in Hd by lra. lra.
  - rewrite Rabs_left in Hd by lra. lra.
Qed.

(** X11: after [equal_axes3d] the three axes have the same length, which is
    the largest length an axis had before, and none is inverted. *)
Theorem equal_axes3d_same_span (axes : Axes3D) :
  let axes' := fst (equal_axes3d axes) in
  span (xlim axes') = largest_span axes /\
  span (ylim axes') = largest_span axes /\
  span (zlim axes') = largest_span axes /\
  0 <= largest_span axes.
Proof.
  cbv zeta. repeat split.
  - exact (equalised_span axes axis_x).
  - exact (equalised_span axes axis_y).
  - exact (equalised_span axes axis_z).
  - apply largest_span_nonneg.
Qed.

(** X12: [equal_axes3d] keeps the centre of every axis, and the old limits
    of the axis, in either order, lie within the new ones. *)
Theorem equal_axes3d_keeps_view (axes : Axes3D) (axis : Axis) :
  let old := get_lim axis axes in
  let new := get_lim axis (fst (equal_axes3d axes)) in
  mean_row new = mean_row old /\
  fst new <= Rmin (fst old) (snd old) /\
  Rmax (fst old) (snd old) <= snd new.
Proof.
  cbv zeta. split; [ apply equalised_centre | ].
  rewrite equalised_axis. cbn [fst snd].
  apply interval_kept, largest_span_bounds.
Qed.


(** *** [label_rectangles] *)

Section LabelFacts.

Variable format_1f : R -> string.



Lemma label_rectangles_loop (labels : list R) (rectangles : list Rectangle)
    (rotation : option string) (text_size : option R) (offset : option (R * R)) :
  let loop :=
    label_loop format_1f labels rectangles (setting "vertical"%string rotation)
      (setting 10 text_size) (setting (0, 0.025) offset)
      (fold_left (fun y_m r => Rmax y_m (get_height r)) rectangles 0) in
  label_rectangles format_1f labels rectangles rotation text_size offset =
  (fst loop, match snd loop with inl e => inl e | inr _ => inr true end).
Proof.
  cbv zeta. unfold label_rectangles.
  now destruct (label_loop format_1f labels rectangles _ _ _ _).
Qed.


Lemma label_loop_short (labels : list R) (rectangles : list Rectangle)
    (rotation : string) (text_size : R) (offset : R * R) (y_m : R) :
  (List.length labels < List.length rectangles)%nat ->
  snd (label_loop format_1f labels rectangles rotation text_size offset y_m) =
    inl IndexError /\
  List.length
    (fst (label_loop format_1f labels rectangles rotation text_size offset y_m)) =
    List.length labels.
Proof.
  revert labels. induction rectangles as [ | r rs IH ]; intros labels Hlen.
  - cbn in Hlen. lia.
  - destruct labels as [ | l ls ]; [ cbn; now split | ].
    cbn [label_loop]. specialize (IH ls ltac:(cbn in Hlen; lia)).
    destruct (label_loop format_1f ls rs rotation text_size offset y_m)
      as [calls result].
    cbn [fst snd] in *.
    destruct IH as [Hres Hcount]. split; [ exact Hres | cbn; now rewrite Hcount ].
Qed.

(** X16: with fewer labels than rectangles, [label_rectangles] raises
    [IndexError] after it has drawn one text for each label. *)
Theorem label_rectangles_missing_label (labels : list R)
    (rectangles : list Rectangle)
    (rotation : option string) (text_size : option R) (offset : option (R * R)) :
  (List.length labels < List.length rectangles)%nat ->
  snd (label_rectangles format_1f labels rectangles rotation text_size offset) =
    inl IndexError /\
  List.length
    (fst (label_rectangles format_1f labels rectangles rotation text_size offset)) =
    List.length labels.
Proof.
  intros Hlen. rewrite label_rectangles_loop. cbv zeta. cbn [fst snd].
  destruct (label_loop_short labels rectangles (setting "vertical"%string rotation)
              (setting 10 text_size) (setting (0, 0.025) offset)
              (fold_left (fun y_m r => Rmax y_m (get_height r)) rectangles 0)
              Hlen) as [Hres Hcount].
  rewrite Hres. now split.
Qed.

End LabelFacts.


Lemma label_rectangles_missing_label_witness :
  snd (label_rectangles (fun _ => ""%string) [1]
         [ {| get_x := 0; get_width := 1; get_height := 3 |};
           {| get_x := 1; get_width := 1; get_height := 2 |} ]
         None None None) = inl IndexError /\
  List.length
    (fst (label_rectangles (fun _ => ""%string) [1]
            [ {| get_x := 0; get_width := 1; get_height := 3 |};
              {| get_x := 1; get_width := 1; get_height := 2 |} ]
            None None None)) = List.length [1].
Proof.
  apply (label_rectangles_missing_label (fun _ => ""%string) [1]
           [ {| get_x := 0; get_width := 1; get_height := 3 |};
             {| get_x := 1; get_width := 1; get_height := 2 |} ]
           None None None).
  cbn. lia.
Defined.

(** *** The swatch grid *)

Lemma grid_step (c j : Z) :
  (0 < c)%Z -> (0 <= j)%Z ->
  (((j + 1) mod c = 0 /\ (j + 1) / c = j / c + 1) \/
   ((j + 1) mod c <> 0 /\ (j + 1) mod c = j mod c + 1 /\ (j + 1) / c = j / c))%Z.
Proof.
  intros Hc Hj.
  pose proof (Z.div_mod j c ltac:(lia)) as Hdm.
  pose proof (Z.mod_pos_bound j c Hc) as Hr.
  destruct (Z.eq_dec (j mod c) (c - 1)) as [Hlast | Hmid].
  - left.
    assert (Hq : ((j + 1) / c = j / c + 1)%Z).
    { symmetry. apply (Z.div_unique _ _ _ 0%Z); lia. }
    assert (Hm : ((j + 1) mod c = 0)%Z).
    { symmetry. apply (Z.mod_unique _ _ (j / c + 1)%Z); lia. }
    now split.
  - right.
    assert (Hq : ((j + 1) / c = j / c)%Z).
    { symmetry. apply (Z.div_unique _ _ _ (j mod c + 1)%Z); lia. }
    assert (Hm : ((j + 1) mod c = j mod c + 1)%Z).
    { symmetry. apply (Z.mod_unique _ _ (j / c)%Z); lia. }
    repeat split; lia || assumption.
Qed.

Section SwatchGrid.

Variables (width height spacing : R) (columns : Z).
Variables (compare_swatches : string) (text_visible : bool) (text_offset : R).
Variables (text_other : list (string * pyval)).
Variable test_colour_swatches : list ColourSwatch.

Hypothesis columns_positive : (0 < columns)%Z.

Local Abbreviation at_ := (swatch_at width height spacing columns).
Local Abbreviation entering := (loop_enters width height spacing columns).
Local Abbreviation loop :=
  (swatch_loop width height spacing columns compare_swatches text_visible
     text_offset text_other test_colour_swatches).
Local Abbreviation calls_of i colour_swatch :=
  (swatch_calls width height spacing columns compare_swatches text_visible
     text_offset text_other i colour_swatch
     (nth i test_colour_swatches colour_swatch)).

Lemma wrap_check (i : nat) (offset_X offset_Y : R) :
  entering i offset_X offset_Y ->
  (if ((Z.of_nat i mod columns =? 0)%Z && negb (i =? 0)%nat)%bool
   then (0, offset_Y - (height + spacing))
   else (offset_X, offset_Y)) = at_ i.
Proof.
  unfold loop_enters, swatch_at. destruct i as [ | j ].
  - intros [-> ->]. cbn [Nat.eqb negb]. rewrite Bool.andb_false_r.
    rewrite Z.mod_0_l, Z.div_0_l by lia. f_equal; ring.
  - intros [-> ->]. cbn [Nat.eqb negb fst snd]. rewrite Bool.andb_true_r.
    rewrite Nat2Z.inj_succ, <- Z.add_1_r.
    destruct (grid_step columns (Z.of_nat j) columns_positive ltac:(lia))
      as [[Hm Hq] | (Hne & Hm & Hq)].
    + rewrite Hm, Hq. cbn [Z.eqb]. rewrite plus_IZR. f_equal; ring.
    + destruct (Z.eqb_spec ((Z.of_nat j + 1) mod columns) 0); [ contradiction | ].
      rewrite Hm, Hq, plus_IZR. f_equal; ring.
Qed.

(** The loop draws the swatch of index [i] at [swatch_at i]. *)
Lemma swatch_loop_grid (swatches : list ColourSwatch) :
  forall (i : nat) (offset_X offset_Y : R),
    (i + List.length swatches <= List.length test_colour_swatches)%nat ->
    entering i offset_X offset_Y ->
    fst (loop i swatches offset_X offset_Y) =
      List.concat (map (fun '(k, colour_swatch) => calls_of k colour_swatch)
                (combine (seq i (List.length swatches)) swatches)) /\
    exists offset_X' : R,
      snd (loop i swatches offset_X offset_Y) =
        inr (offset_X',
             match swatches with
             | [] => offset_Y
             | _ => snd (at_ (i + List.length swatches - 1))
             end).
Proof.
  induction swatches as [ | colour_swatch swatches IH ];
    intros i offset_X offset_Y Hlen Henter.
  - cbn. split; [ reflexivity | now exists offset_X ].
  - cbn [swatch_loop].
    destruct (Z.eqb_spec columns 0) as [H0 | _]; [ lia | ].
    rewrite (wrap_check i offset_X offset_Y Henter).
    destruct (at_ i) as [x_0 y_0] eqn:Hat.
    destruct (nth_error test_colour_swatches i) as [test | ] eqn:Hnth.
    2:{ apply nth_error_None in Hnth. cbn [List.length] in Hlen. lia. }
    assert (Henter' : entering (S i) (x_0 + (width + spacing)) y_0).
    { unfold loop_enters. now rewrite Hat. }
    cbn [List.length] in Hlen.
    destruct (IH (S i) (x_0 + (width + spacing)) y_0 ltac:(lia) Henter')
      as [Hcalls [offset_X' Hres]].
    destruct (loop (S i) swatches (x_0 + (width + spacing)) y_0)
      as [calls result].
    cbn [fst snd] in *. split.
    + cbn [List.length seq combine map List.concat]. rewrite <- Hcalls.
      unfold swatch_calls. rewrite Hat.
      rewrite (nth_error_nth _ _ _ Hnth). reflexivity.
    + exists offset_X'. rewrite Hres. do 2 f_equal.
      destruct swatches as [ | s2 rest ].
      * cbn [List.length]. replace (i + 1 - 1)%nat with i by lia. now rewrite Hat.
      * cbn [List.length]. f_equal. f_equal. lia.
Qed.

End SwatchGrid.

(** *** [multi_colour_swatch_plot] *)

Lemma even_odd_items_length {X : Type} (xs : list X) :
  List.length (even_items xs) =
  (List.length (odd_items xs) + if Nat.even (List.length xs) then 0 else 1)%nat.
Proof.
  induction xs as [ | x xs IH ]; [ reflexivity | ].
  cbn [even_items odd_items List.length]. rewrite Nat.even_succ, <- Nat.negb_even.
  rewrite IH. destruct (Nat.even (List.length xs)); cbn; lia.
Qed.

Lemma reference_test_length (compare_swatches : option string)
    (colour_swatches : list ColourSwatch) :
  match compare_swatches with
  | Some _ => Nat.even (List.length colour_swatches) = true
  | None => True
  end ->
  List.length (reference_of compare_swatches colour_swatches) =
  List.length (test_of compare_swatches colour_swatches).
Proof.
  destruct compare_swatches as [ s | ]; cbn [reference_of test_of]; intros Heven.
  - rewrite even_odd_items_length, Heven. lia.
  - reflexivity.
Qed.

Lemma swatch_plot_unfolded (colour_swatches : list ColourSwatch)
    (width height spacing : R) (columns : option Z)
    (text_parameters : option TextParameters) (background_colour : Colour)
    (compare_swatches : option string) (kwargs : Kwargs) :
  let reference := reference_of compare_swatches colour_swatches in
  let test := test_of compare_swatches colour_swatches in
  let c := setting (Z.of_nat (List.length reference)) columns in
  let settings :=
    update (swatch_settings
              (swatch_limits width height spacing c
                 (List.length colour_swatches) (List.length reference)))
      kwargs in
  (0 < c)%Z ->
  match compare_swatches with
  | Some _ => Nat.even (List.length colour_swatches) = true
  | None => True
  end ->
  multi_colour_swatch_plot colour_swatches width height spacing columns
    text_parameters background_colour compare_swatches kwargs =
  (canvas kwargs ++
   grid_calls width height spacing c (compare_mode compare_swatches)
     (text_visible_of text_parameters) (text_offset_of text_parameters)
     (text_other_of text_parameters) reference test ++
   [call_set_facecolor background_colour] ++ fst (render settings),
   inr (snd (render settings))).
Proof.
  intros reference test c settings Hc Heven.
  unfold multi_colour_swatch_plot.
  assert (Hassert : match compare_swatches with
                    | Some _ => negb (Nat.even (List.length colour_swatches))
                    | None => false
                    end = false).
  { destruct compare_swatches; [ now rewrite Heven | reflexivity ]. }
  rewrite Hassert. fold reference test c.
  fold (compare_mode compare_swatches) (text_visible_of text_parameters)
    (text_offset_of text_parameters) (text_other_of text_parameters).
  pose proof (reference_test_length compare_swatches colour_swatches Heven) as Hlen.
  fold reference test in Hlen.
  destruct (swatch_loop_grid width height spacing c
              (compare_mode compare_swatches) (text_visible_of text_parameters)
              (text_offset_of text_parameters) (text_other_of text_parameters)
              test Hc reference 0%nat 0 0 ltac:(cbn; lia)
              ltac:(split; reflexivity)) as [Hcalls [offset_X' Hres]].
  destruct (swatch_loop width height spacing c _ _ _ _ test 0 reference 0 0)
    as [calls result].
  cbn [fst snd] in Hcalls, Hres. subst calls result.
  assert (Hlim :
    (0, IZR (Z.min (Z.of_nat (List.length colour_swatches)) c) * width +
        IZR (Z.min (Z.of_nat (List.length colour_swatches)) c) * spacing - spacing,
     match reference with
     | [] => 0
     | _ :: _ => snd (swatch_at width height spacing c
                        (0 + List.length reference - 1))
     end, height) =
    swatch_limits width height spacing c (List.length colour_swatches)
      (List.length reference)).
  { unfold swatch_limits. destruct reference as [ | r rs ]; [ reflexivity | ].
    cbn [List.length]. do 2 f_equal. f_equal. f_equal. lia. }
  rewrite Hlim. fold settings.
  destruct (render settings) as [calls_render figure]. reflexivity.
Qed.



(** Which calls each function makes. *)
Ltac split_calls H :=
  repeat (apply in_app_or in H; destruct H as [H | H]).

Ltac single_call H :=
  unfold when in H;
  repeat match type of H with
         | In _ (if ?b then _ else _) => destruct b
         | In _ (match ?o with Some _ => _ | None => _ end) => destruct o
         end;
  cbn [In] in H;
  repeat match type of H with
         | _ \/ _ => destruct H as [H | H]
         | False => contradiction
         end.

Lemma boundaries_kind (kwargs : Kwargs) (call : Call) :
  In call (boundaries kwargs) ->
  match call with
  | call_xlim _ _ | call_ylim _ _ => True
  | _ => False
  end.
Proof.
  unfold boundaries. intros H.
  destruct (bounding_box kwargs) as [[[[b0 b1] b2] b3] | ].
  - single_call H; subst call; exact I.
  - destruct (setting (0, 1, 0, 1) (limits kwargs)) as [[[l0 l1] l2] l3].
    destruct (setting (0, 0, 0, 0) (margins kwargs)) as [[[m0 m1] m2] m3].
    split_calls H; single_call H; subst call; exact I.
Qed.

Lemma decorate_kind (kwargs : Kwargs) (call : Call) :
  In call (decorate kwargs) ->
  match call with
  | call_title _ | call_xlabel _ | call_ylabel _ | call_legend _ _
  | call_set_minor_locator _ _ | call_set_ticks _ _ | call_grid _ _
  | call_axvline _ _ | call_axhline _ _ | call_set_aspect _
  | call_set_axis_off => True
  | _ => False
  end.
Proof.
  unfold decorate. intros H.
  split_calls H; single_call H; subst call; exact I.
Qed.

Lemma display_kind (kwargs : Kwargs) (call : Call) :
  In call (fst (display kwargs)) ->
  match call with
  | call_patch_set_visible _ | call_tight_layout => True
  | call_savefig _ | call_show | call_close =>
      setting true (standalone kwargs) = true
  | _ => False
  end.
Proof.
  unfold display. intros H.
  destruct (setting true (standalone kwargs)); cbn [fst] in H;
    split_calls H; single_call H; subst call; exact I || reflexivity.
Qed.

Lemma render_calls (kwargs : Kwargs) :
  fst (render kwargs) =
  (if setting true (with_boundaries kwargs) then boundaries kwargs else []) ++
  (if setting true (with_decorate kwargs) then decorate kwargs else []) ++
  fst (display kwargs).
Proof. unfold render. now destruct (display kwargs). Qed.

Lemma render_result (kwargs : Kwargs) :
  snd (render kwargs) = snd (display kwargs).
Proof. unfold render. now destruct (display kwargs). Qed.

Lemma render_kind (kwargs : Kwargs) (call : Call) :
  In call (fst (render kwargs)) ->
  match call with
  | call_savefig _ | call_show | call_close =>
      setting true (standalone kwargs) = true
  | call_set_size_inches _ | call_fill _ _ _ | call_text _ _ _ _
  | call_set_facecolor _ | call_imshow _ _ _ => False
  | _ => True
  end.
Proof.
  rewrite render_calls. intros H.
  apply in_app_or in H. destruct H as [H | H].
  - destruct (setting true (with_boundaries kwargs)); [ | contradiction ].
    apply boundaries_kind in H. now destruct call.
  - apply in_app_or in H. destruct H as [H | H].
    + destruct (setting true (with_decorate kwargs)); [ | contradiction ].
      apply decorate_kind in H. now destruct call.
    + apply display_kind in H. now destruct call.
Qed.

Lemma render_no_fill (kwargs : Kwargs) (call : Call) :
  In call (fst (render kwargs)) -> forall xs ys c, call <> call_fill xs ys c.
Proof.
  intros H xs ys c ->. now apply render_kind in H.
Qed.

(** X17: [render] returns no figure when standalone, and then ends with
    saving to the given file name, or showing, and closing; it returns the
    figure otherwise, and then neither saves, shows nor closes. *)
Theorem render_standalone (kwargs : Kwargs) :
  (setting true (standalone kwargs) = true ->
   snd (render kwargs) = None /\
   exists calls,
     fst (render kwargs) =
     calls ++ [match filename kwargs with
               | Some f => call_savefig f
               | None => call_show
               end; call_close]) /\
  (setting true (standalone kwargs) = false ->
   snd (render kwargs) = Some current_figure /\
   forall call, In call (fst (render kwargs)) ->
     call <> call_show /\ call <> call_close /\
     forall f, call <> call_savefig f).
Proof.
  split; intros Hs.
  - rewrite render_result, render_calls. unfold display. rewrite Hs.
    cbn [fst snd]. split; [ reflexivity | ].
    exists ((if setting true (with_boundaries kwargs)
             then boundaries kwargs else []) ++
            (if setting true (with_decorate kwargs)
             then decorate kwargs else []) ++
            when (setting false (transparent_background kwargs))
              [call_patch_set_visible false] ++
            when (setting false (tight_layout kwargs)) [call_tight_layout]).
    rewrite <- !app_assoc. now destruct (filename kwargs).
  - rewrite render_result. split.
    + unfold display. now rewrite Hs.
    + intros call Hin. apply render_kind in Hin. rewrite Hs in Hin.
      repeat split; [ | | intros f ]; intros Heq; subst call; discriminate Hin.
Qed.

Lemma render_standalone_witness :
  snd (render no_kwargs) = None /\
  exists calls, fst (render no_kwargs) = calls ++ [call_show; call_close].
Proof. apply (proj1 (render_standalone no_kwargs)). reflexivity. Defined.

Lemma items_length_le {X : Type} (xs : list X) :
  (List.length (even_items xs) <= List.length xs)%nat /\
  (List.length (odd_items xs) <= List.length xs)%nat.
Proof.
  induction xs as [ | x xs [IHe IHo] ]; [ now split | ].
  cbn [even_items odd_items List.length]. split; lia.
Qed.

Lemma reference_length_le (compare_swatches : option string)
    (colour_swatches : list ColourSwatch) :
  (List.length (reference_of compare_swatches colour_swatches) <=
   List.length colour_swatches)%nat.
Proof.
  destruct compare_swatches; cbn [reference_of]; [ apply items_length_le | lia ].
Qed.

Lemma grid_calls_in (width height spacing : R) (columns : Z)
    (mode : string) (text_visible : bool) (text_offset : R)
    (text_other : list (string * pyval)) (reference test : list ColourSwatch)
    (call : Call) :
  In call (grid_calls width height spacing columns mode text_visible
             text_offset text_other reference test) ->
  exists (i : nat) (colour_swatch : ColourSwatch),
    (i < List.length reference)%nat /\
    In call (swatch_calls width height spacing columns mode text_visible
               text_offset text_other i colour_swatch
               (nth i test colour_swatch)).
Proof.
  unfold grid_calls. intros H. apply in_concat in H.
  destruct H as (calls & Hmap & Hin). apply in_map_iff in Hmap.
  destruct Hmap as ([i colour_swatch] & <- & Hcomb).
  exists i, colour_swatch. split; [ | exact Hin ].
  apply in_combine_l in Hcomb. apply in_seq in Hcomb. lia.
Qed.

(** The box of the swatch of index [i] lies within the limits. *)
Lemma swatch_box_within (width height spacing : R) (columns : Z)
    (count references i : nat) :
  0 <= width -> 0 <= height -> 0 <= spacing -> (0 < columns)%Z ->
  (i < references)%nat -> (references <= count)%nat ->
  let '(x_0, y_0) := swatch_at width height spacing columns i in
  let '(x_min, x_max, y_min, y_max) :=
    swatch_limits width height spacing columns count references in
  x_min <= x_0 /\ x_0 + width <= x_max /\ y_min <= y_0 /\ y_0 + height <= y_max.
Proof.
  intros Hw Hh Hs Hc Hi Hn. unfold swatch_at, swatch_limits.
  destruct references as [ | k ]; [ lia | ]. unfold swatch_at. cbn [snd].
  pose proof (Z.mod_pos_bound (Z.of_nat i) columns Hc) as Hmod.
  assert (Hmod_le : (Z.of_nat i mod columns <= Z.of_nat i)%Z)
    by (apply Z.mod_le; lia).
  assert (Hdiv0 : (0 <= Z.of_nat i / columns)%Z) by (apply Z.div_pos; lia).
  assert (Hdiv : (Z.of_nat i / columns <= Z.of_nat k / columns)%Z)
    by (apply Z.div_le_mono; lia).
  set (m := Z.min (Z.of_nat count) columns).
  assert (Hm : (Z.of_nat i mod columns + 1 <= m)%Z) by (unfold m; lia).
  apply IZR_le in Hm, Hdiv, Hdiv0. rewrite plus_IZR in Hm.
  assert (Hx0 : 0 <= IZR (Z.of_nat i mod columns)) by (apply IZR_le; lia).
  set (col := IZR (Z.of_nat i mod columns)) in *.
  set (row := IZR (Z.of_nat i / columns)) in *.
  set (last_row := IZR (Z.of_nat k / columns)) in *.
  set (M := IZR m) in *.
  repeat split; nra.
Qed.

(** X19: with sizes that are not negative and a positive column count, every
    polygon that [multi_colour_swatch_plot] fills lies within the limits it
    computes for the axes. *)
Theorem multi_colour_swatch_plot_within_limits
    (colour_swatches : list ColourSwatch)
    (width height spacing : R) (columns : option Z)
    (text_parameters : option TextParameters) (background_colour : Colour)
    (compare_swatches : option string) (kwargs : Kwargs) :
  let reference := reference_of compare_swatches colour_swatches in
  let c := setting (Z.of_nat (List.length reference)) columns in
  0 <= width -> 0 <= height -> 0 <= spacing -> (0 < c)%Z ->
  match compare_swatches with
  | Some _ => Nat.even (List.length colour_swatches) = true
  | None => True
  end ->
  let '(x_min, x_max, y_min, y_max) :=
    swatch_limits width height spacing c (List.length colour_swatches)
      (List.length reference) in
  forall (call : Call) (xs ys : list R) (colour : option Colour),
    In call
      (fst (multi_colour_swatch_plot colour_swatches width height spacing
              columns text_parameters background_colour compare_swatches
              kwargs)) ->
    call = call_fill xs ys colour ->
    Forall (fun x => x_min <= x <= x_max) xs /\
    Forall (fun y => y_min <= y <= y_max) ys.
Proof.
  intros reference c Hw Hh Hs Hc Heven.
  pose proof (swatch_plot_unfolded colour_swatches width height
                spacing columns text_parameters background_colour
                compare_swatches kwargs Hc Heven) as Hgrid.
  cbv zeta in Hgrid. fold reference c in Hgrid.
  destruct (swatch_limits width height spacing c (List.length colour_swatches)
              (List.length reference)) as [[[x_min x_max] y_min] y_max] eqn:Hlim.
  intros call xs ys colour Hin Hcall. rewrite Hgrid in Hin. cbn [fst] in Hin.
  apply in_app_or in Hin. destruct Hin as [Hin | Hin].
  { unfold canvas in Hin. cbn [In] in Hin. destruct Hin as [<- | []].
    discriminate. }
  apply in_app_or in Hin. destruct Hin as [Hin | Hin].
  2:{ apply in_app_or in Hin. destruct Hin as [Hin | Hin].
      - cbn [In] in Hin. destruct Hin as [<- | []]. discriminate.
      - exfalso. exact (render_no_fill _ _ Hin xs ys colour Hcall). }
  apply grid_calls_in in Hin. destruct Hin as (i & colour_swatch & Hi & Hin).
  pose proof (swatch_box_within width height spacing c
                (List.length colour_swatches) (List.length reference) i
                Hw Hh Hs Hc Hi
                (reference_length_le compare_swatches colour_swatches)) as Hbox.
  unfold swatch_calls in Hin.
  destruct (swatch_at width height spacing c i) as [x_0 y_0].
  rewrite Hlim in Hbox. destruct Hbox as (Hx0 & Hx1 & Hy0 & Hy1).
  cbn [In] in Hin. destruct Hin as [Href | [Htest | Hname]].
  - unfold draw_reference in Href. rewrite Hcall in Href.
    injection Href as <- <- _.
    split; repeat (apply Forall_cons; [ lra | ]); apply Forall_nil.
  - unfold draw_test in Htest. rewrite Hcall in Htest.
    destruct (String.eqb (compare_mode compare_swatches) "stacked");
      injection Htest as <- <- _;
      split; repeat (apply Forall_cons; [ lra | ]); apply Forall_nil.
  - exfalso. unfold draw_name in Hname.
    destruct (name colour_swatch); [ | contradiction ].
    unfold when in Hname. destruct (text_visible_of text_parameters);
      [ | contradiction ].
    cbn [In] in Hname. destruct Hname as [<- | []]. discriminate.
Qed.

Lemma multi_colour_swatch_plot_within_limits_witness :
  let '(x_min, x_max, y_min, y_max) := swatch_limits 1 1 0 2 2 2 in
  Forall (fun x => x_min <= x <= x_max) [0; 0 + 1; 0 + 1; 0] /\
  Forall (fun y => y_min <= y <= y_max) [0; 0; 0 + 1; 0 + 1].
Proof.
  apply (multi_colour_swatch_plot_within_limits [RGB_1; RGB_2] 1 1 0 None None
           white None no_kwargs ltac:(lra) ltac:(lra) ltac:(lra)
           ltac:(reflexivity) I
           (call_fill [0; 0 + 1; 0 + 1; 0] [0; 0; 0 + 1; 0 + 1] (RGB RGB_1))
           [0; 0 + 1; 0 + 1; 0] [0; 0; 0 + 1; 0 + 1] (RGB RGB_1));
    [ right; left; reflexivity | reflexivity ].
Defined.

(** X20: comparing an odd number of swatches raises [AssertionError] before
    anything is drawn. *)
Theorem multi_colour_swatch_plot_odd_comparison
    (colour_swatches : list ColourSwatch)
    (width height spacing : R) (columns : option Z)
    (text_parameters : option TextParameters) (background_colour : Colour)
    (mode : string) (kwargs : Kwargs) :
  Nat.even (List.length colour_swatches) = false ->
  multi_colour_swatch_plot colour_swatches width height spacing columns
    text_parameters background_colour (Some mode) kwargs =
  ([], inl AssertionError).
Proof.
  intros Hodd. unfold multi_colour_swatch_plot. now rewrite Hodd.
Qed.

Lemma multi_colour_swatch_plot_odd_comparison_witness :
  multi_colour_swatch_plot [RGB_1; RGB_2; RGB_1] 1 1 0 None None white
    (Some "Diagonal"%string) no_kwargs = ([], inl AssertionError).
Proof.
  apply (multi_colour_swatch_plot_odd_comparison [RGB_1; RGB_2; RGB_1] 1 1 0
           None None white "Diagonal"%string no_kwargs).
  reflexivity.
Defined.

(** X21: with [columns=0] and a swatch to draw, [multi_colour_swatch_plot]
    raises [ZeroDivisionError] after it has set the canvas and before it
    draws. *)
Theorem multi_colour_swatch_plot_zero_columns
    (colour_swatches : list ColourSwatch)
    (width height spacing : R)
    (text_parameters : option TextParameters) (background_colour : Colour)
    (compare_swatches : option string) (kwargs : Kwargs) :
  colour_swatches <> [] ->
  match compare_swatches with
  | Some _ => Nat.even (List.length colour_swatches) = true
  | None => True
  end ->
  multi_colour_swatch_plot colour_swatches width height spacing (Some 0%Z)
    text_parameters background_colour compare_swatches kwargs =
  (canvas kwargs, inl ZeroDivisionError).
Proof.
  intros Hne Heven. unfold multi_colour_swatch_plot.
  assert (Hassert : match compare_swatches with
                    | Some _ => negb (Nat.even (List.length colour_swatches))
                    | None => false
                    end = false).
  { destruct compare_swatches; [ now rewrite Heven | reflexivity ]. }
  rewrite Hassert.
  assert (Href : reference_of compare_swatches colour_swatches <> []).
  { destruct colour_swatches as [ | x xs ]; [ contradiction | ].
    destruct compare_swatches; discriminate. }
  destruct (reference_of compare_swatches colour_swatches) as [ | r rs ];
    [ contradiction | ].
  cbn [setting swatch_loop Z.eqb]. now rewrite app_nil_r.
Qed.

Lemma multi_colour_swatch_plot_zero_columns_witness :
  multi_colour_swatch_plot [RGB_1; RGB_2] 1 1 0 (Some 0%Z) None white None
    no_kwargs = (canvas no_kwargs, inl ZeroDivisionError).
Proof.
  apply (multi_colour_swatch_plot_zero_columns [RGB_1; RGB_2] 1 1 0 None white
           None no_kwargs); [ discriminate | exact I ].
Defined.

Lemma render_swatch_settings (lim : R * R * R * R) :
  render (update (swatch_settings lim) no_kwargs) =
  (let '(x_min, x_max, y_min, y_max) := lim in
   [call_xlim (x_min + 0) (x_max + 0); call_ylim (y_min + 0) (y_max + 0);
    call_set_ticks axis_x []; call_set_ticks axis_y [];
    call_set_aspect "equal"; call_show; call_close],
   None).
Proof. destruct lim as [[[x_min x_max] y_min] y_max]. reflexivity. Qed.





(** X24: with no swatch and the default columns nothing is filled, and the
    horizontal limits are set from [0] to [- spacing]. *)
Theorem multi_colour_swatch_plot_empty (width height spacing : R)
    (text_parameters : option TextParameters) (background_colour : Colour)
    (compare_swatches : option string) :
  multi_colour_swatch_plot [] width height spacing None text_parameters
    background_colour compare_swatches no_kwargs =
  ([call_set_size_inches DEFAULT_FIGURE_SIZE;
    call_set_facecolor background_colour;
    call_xlim 0 (- spacing); call_ylim 0 height;
    call_set_ticks axis_x []; call_set_ticks axis_y [];
    call_set_aspect "equal"; call_show; call_close],
   inr None).
Proof.
  unfold multi_colour_swatch_plot.
  assert (Href : reference_of compare_swatches [] = [])
    by now destruct compare_swatches.
  assert (Hassert : match compare_swatches with
                    | Some _ => negb (Nat.even (@List.length ColourSwatch []))
                    | None => false
                    end = false) by now destruct compare_swatches.
  rewrite Hassert, Href. cbn [swatch_loop List.length setting Z.of_nat Z.min
                                Z.compare].
  rewrite render_swatch_settings. cbn [canvas setting figure_size no_kwargs app].
  replace (0 * width + 0 * spacing - spacing + 0) with (- spacing) by ring.
  rewrite !Rplus_0_r. reflexivity.
Qed.

(** *** [camera] *)



(** *** [image_plot] *)

Lemma render_without_boundaries (kwargs : Kwargs) (call : Call) :
  In call (fst (render (update kwargs without_boundaries))) ->
  forall lo hi, call <> call_xlim lo hi /\ call <> call_ylim lo hi.
Proof.
  rewrite render_calls. cbn [update with_boundaries without_boundaries updated
                               setting app].
  intros H lo hi. apply in_app_or in H. destruct H as [H | H].
  - destruct (setting true _); [ | contradiction ].
    apply decorate_kind in H. split; intros Heq; subst call; exact H.
  - apply display_kind in H. split; intros Heq; subst call; exact H.
Qed.

Lemma image_plot_calls (image : Image) (text_parameters : option ImageText)
    (interpolation : option string) (colour_map : string) (kwargs : Kwargs) :
  exists calls_text calls_render,
    fst (image_plot image text_parameters interpolation colour_map kwargs) =
      [call_imshow (map (clip 0 1) (image_values image)) interpolation colour_map]
      ++ calls_text ++ canvas (update image_settings kwargs) ++ calls_render /\
    (forall call, In call calls_text -> exists x y s kw, call = call_text x y s kw) /\
    (forall call, In call calls_render ->
       forall lo hi, call <> call_xlim lo hi /\ call <> call_ylim lo hi).
Proof.
  unfold image_plot.
  set (calls_text := match match text_parameters with
                           | Some p => image_text p
                           | None => None
                           end with
                     | Some t => _
                     | None => []
                     end).
  assert (Htext : forall call, In call calls_text ->
                    exists x y s kw, call = call_text x y s kw).
  { subst calls_text. intros call Hin.
    destruct (match text_parameters with Some p => image_text p | None => None end);
      [ | contradiction ].
    destruct Hin as [<- | []]. now do 4 eexists. }
  destruct (with_boundaries kwargs).
  - exists calls_text, []. cbn [fst]. split; [ | split; [ exact Htext | ] ].
    + now rewrite app_nil_r.
    + intros call [].
  - pose proof (render_without_boundaries (update image_settings kwargs)) as Hr.
    destruct (render (update (update image_settings kwargs) without_boundaries))
      as [calls_render figure].
    cbn [fst] in Hr. exists calls_text, calls_render.
    split; [ reflexivity | split; [ exact Htext | exact Hr ] ].
Qed.

(** X25: whatever keyword arguments it is given, [bounding_box], [limits] and
    the tighten switches included, [image_plot] never sets the limits of the
    axes: its [bounding_box] setting is not used. *)
Theorem image_plot_never_sets_limits (image : Image)
    (text_parameters : option ImageText) (interpolation : option string)
    (colour_map : string) (kwargs : Kwargs) (lo hi : R) :
  ~ In (call_xlim lo hi)
      (fst (image_plot image text_parameters interpolation colour_map kwargs)) /\
  ~ In (call_ylim lo hi)
      (fst (image_plot image text_parameters interpolation colour_map kwargs)).
Proof.
  destruct (image_plot_calls image text_parameters interpolation colour_map kwargs)
    as (calls_text & calls_render & -> & Htext & Hrender).
  assert (Hno : forall call,
            In call ([call_imshow (map (clip 0 1) (image_values image))
                        interpolation colour_map] ++ calls_text ++
                     canvas (update image_settings kwargs) ++ calls_render) ->
            call <> call_xlim lo hi /\ call <> call_ylim lo hi).
  { intros call Hin. apply in_app_or in Hin. destruct Hin as [[<- | []] | Hin];
      [ split; discriminate | ].
    apply in_app_or in Hin. destruct Hin as [Hin | Hin].
    { destruct (Htext call Hin) as (x & y & t & kw & ->). split; discriminate. }
    apply in_app_or in Hin. destruct Hin as [[<- | []] | Hin];
      [ split; discriminate | ].
    exact (Hrender call Hin lo hi). }
  split; intros Hin; apply Hno in Hin; destruct Hin as [Hx Hy];
    [ now apply Hx | now apply Hy ].
Qed.

(** X26: when [with_boundaries] is among the keyword arguments, [image_plot]
    raises [TypeError] after it has shown the image, drawn the text and set
    the canvas, and before anything is rendered. *)
Theorem image_plot_with_boundaries_passed (image : Image)
    (text_parameters : option ImageText) (interpolation : option string)
    (colour_map : string) (kwargs : Kwargs) :
  with_boundaries kwargs <> None ->
  snd (image_plot image text_parameters interpolation colour_map kwargs) =
    inl TypeError /\
  exists calls_text,
    fst (image_plot image text_parameters interpolation colour_map kwargs) =
      [call_imshow (map (clip 0 1) (image_values image)) interpolation colour_map]
      ++ calls_text ++
      [call_set_size_inches (setting DEFAULT_FIGURE_SIZE (figure_size kwargs))] /\
    forall call, In call calls_text -> exists x y s kw, call = call_text x y s kw.
Proof.
  intros Hpassed. unfold image_plot.
  destruct (with_boundaries kwargs) as [b | ]; [ | contradiction ].
  cbn [fst snd]. split; [ reflexivity | ].
  assert (Hsize : canvas (update image_settings kwargs) =
                  [call_set_size_inches
                     (setting DEFAULT_FIGURE_SIZE (figure_size kwargs))]).
  { unfold canvas. cbn [update figure_size image_settings updated].
    now destruct (figure_size kwargs). }
  rewrite Hsize. eexists. split; [ reflexivity | ].
  intros call Hin.
  destruct (match text_parameters with Some p => image_text p | None => None end);
    [ | contradiction ].
  destruct Hin as [<- | []]. now do 4 eexists.
Qed.

Lemma image_plot_with_boundaries_passed_witness :
  snd (image_plot {| shape_0 := 1; image_values := [0.5; 2] |} None
         (Some "nearest"%string) "Greys_r"
         (update no_kwargs without_boundaries)) = inl TypeError.
Proof.
  apply (image_plot_with_boundaries_passed
           {| shape_0 := 1; image_values := [0.5; 2] |} None
           (Some "nearest"%string) "Greys_r"
           (update no_kwargs without_boundaries)).
  discriminate.
Defined.

Lemma clip_range (a : R) : 0 <= clip 0 1 a <= 1.
Proof.
  unfold clip, Rmin, Rmax.
  destruct (Rle_dec a 0); destruct (Rle_dec _ 1); lra.
Qed.

Lemma clip_inside (a : R) : 0 <= a <= 1 -> clip 0 1 a = a.
Proof.
  intros Ha. unfold clip, Rmin, Rmax.
  destruct (Rle_dec a 0); destruct (Rle_dec _ 1); lra.
Qed.

(** X27: the first call of [image_plot] shows the image with every value
    clipped to [[0, 1]]: there are as many values as in the image, all lie
    in [[0, 1]], and a value of the image that lies in [[0, 1]] is shown as
    it is. *)
Theorem image_plot_clips (image : Image) (text_parameters : option ImageText)
    (interpolation : option string) (colour_map : string) (kwargs : Kwargs) :
  exists shown calls,
    fst (image_plot image text_parameters interpolation colour_map kwargs) =
      call_imshow shown interpolation colour_map :: calls /\
    List.length shown = List.length (image_values image) /\
    Forall (fun v => 0 <= v <= 1) shown /\
    Forall2 (fun v shown_v => 0 <= v <= 1 -> shown_v = v)
      (image_values image) shown.
Proof.
  destruct (image_plot_calls image text_parameters interpolation colour_map kwargs)
    as (calls_text & calls_render & -> & _).
  do 2 eexists. split; [ reflexivity | ].
  split; [ apply length_map | ]. split.
  - apply Forall_map, Forall_forall. intros v _. apply clip_range.
  - induction (image_values image) as [ | v vs IH ]; cbn [map]; constructor;
      [ apply clip_inside | exact IH ].
Qed.

End PlottingFacts.
